(** * Hybrid recommendation pipeline: a shallow embedding

    The development follows the Python sources
      backend/rl_agent.py            (class RLAgent)
      backend/content_filtering.py   (class ContentBasedRecommender)
      backend/hybrid_recommend.py    (class HybridRecommender)
      backend/fairness_re_ranker.py  (re_rank_fair)
      backend/fairness_checks.py     (re_rank_recommendations)

    Conventions.
    - Python [int] is [Z]; identifiers of users and movies are [Z].
    - Python [float] scores are exact rationals in canonical form ([Qc]),
      so that equality of scores is Leibniz equality; rounding, NaN and
      signed zeros are not part of the model.
    - [dict] keyed by hashable values is a [gmap] when only lookups matter
      and an association list in insertion order when iteration order
      matters (the argument of [sorted]).
    - [list.sort(key=..., reverse=True)] and [sorted(..., reverse=True)]
      are the stable descending sort [sort_desc].
    - A Python exception that escapes a function is the [None] of an
      [option] result; a [try/except] that swallows it is a [match]. *)

From stdpp Require Import gmap strings list fin_maps numbers sorting.
From Stdlib Require Import QArith Qcanon Ascii Lqa.

Local Open Scope Z_scope.
Local Open Scope Qc_scope.

(** ** Numbers *)

(** A decimal literal of the source, read as the rational it denotes. *)
Definition dec (q : Q) : Qc := Q2Qc q.

(** [x <= y] on scores, as the boolean the interpreter computes. *)
Definition Qc_leb (x y : Qc) : bool := Qle_bool x y.

(** [x < y] on scores. *)
Definition Qc_ltb (x y : Qc) : bool := negb (Qle_bool y x).

(** ** Python built-ins used by the sources *)

Module Py.

(** An index of a slice, clamped the way [list.__getitem__] clamps it:
    a negative index counts from the end, and both ends saturate. *)
Definition clamp_index (len i : Z) : Z :=
  if (i <? 0)%Z then Z.max 0 (len + i) else Z.min i len.

(** [l[lo:hi]] *)
Definition slice {A} (lo hi : Z) (l : list A) : list A :=
  let len := Z.of_nat (length l) in
  let lo' := clamp_index len lo in
  let hi' := clamp_index len hi in
  take (Z.to_nat (hi' - lo')) (drop (Z.to_nat lo') l).

(** [l[:hi]] *)
Definition slice_to {A} (hi : Z) (l : list A) : list A := slice 0 hi l.

(** [l[lo:]] *)
Definition slice_from {A} (lo : Z) (l : list A) : list A :=
  slice lo (Z.of_nat (length l)) l.

(** [max(l, default=d)]: the first maximal item, [d] on the empty list. *)
Definition max_default (d : Qc) (l : list Qc) : Qc :=
  match l with
  | [] => d
  | x :: rest =>
      fold_left (fun best item => if Qc_ltb best item then item else best)
                rest x
  end.

Section Sort.
Context {A : Type} (key : A -> Qc).

(** Insertion of [x], which stood before every element of [l] in the
    original list, into the sorted [l]: [x] goes in front of the first
    element whose key does not exceed its own, hence in front of its
    equals. *)
Fixpoint insert_desc (x : A) (l : list A) : list A :=
  match l with
  | [] => [x]
  | y :: l' =>
      if Qc_leb (key y) (key x) then x :: y :: l'
      else y :: insert_desc x l'
  end.

(** [l.sort(key=key, reverse=True)]: descending by key, equal keys in
    their original order. *)
Fixpoint sort_desc (l : list A) : list A :=
  match l with
  | [] => []
  | x :: l' => insert_desc x (sort_desc l')
  end.
End Sort.

(** Characters that [str.strip()] removes from a string decoded as
    Latin-1: the code points for which [str.isspace] holds. *)
Definition is_space (c : ascii) : bool :=
  let n := nat_of_ascii c in
  ((9 <=? n) && (n <=? 13) || (28 <=? n) && (n <=? 32)
   || (n =? 133) || (n =? 160))%nat.

Fixpoint lstrip (s : string) : string :=
  match s with
  | String c s' => if is_space c then lstrip s' else s
  | EmptyString => EmptyString
  end.

Fixpoint rstrip (s : string) : string :=
  match s with
  | String c s' =>
      match rstrip s' with
      | EmptyString => if is_space c then EmptyString else String c EmptyString
      | t => String c t
      end
  | EmptyString => EmptyString
  end.

(** [s.strip()] *)
Definition strip (s : string) : string := rstrip (lstrip s).

(** [s.split(sep)] for a one-character separator: never empty, the
    empty string splits into one empty field. *)
Fixpoint split (sep : ascii) (s : string) : list string :=
  match s with
  | EmptyString => [EmptyString]
  | String c s' =>
      if Ascii.eqb c sep then EmptyString :: split sep s'
      else match split sep s' with
           | f :: fs => String c f :: fs
           | [] => [String c EmptyString]
           end
  end.

(** Truth value of a string: non-empty. *)
Definition truthy (s : string) : bool :=
  match s with EmptyString => false | _ => true end.

(** [s[-4:]] on a string. *)
Definition last4 (s : string) : string :=
  String.string_of_list_ascii (slice_from (-4) (String.list_ascii_of_string s)).

Definition digit_value (c : ascii) : option Z :=
  let n := nat_of_ascii c in
  if ((48 <=? n) && (n <=? 57))%nat then Some (Z.of_nat (n - 48)) else None.

(** The digits of an integer literal: one or more decimal digits, single
    underscores allowed between two digits. [acc] is the value read so
    far, [prev_digit] tells whether the previous character was a digit. *)
Fixpoint digits (acc : Z) (prev_digit : bool) (s : list ascii) : option Z :=
  match s with
  | [] => if prev_digit then Some acc else None
  | c :: s' =>
      match digit_value c with
      | Some d => digits (10 * acc + d)%Z true s'
      | None =>
          if Ascii.eqb c "_"%char && prev_digit then
            match s' with
            | c' :: _ =>
                match digit_value c' with
                | Some _ => digits acc false s'
                | None => None
                end
            | [] => None
            end
          else None
      end
  end.

(** [int(s)] on a Latin-1 string; [None] is [ValueError]. *)
Definition int (s : string) : option Z :=
  match String.list_ascii_of_string (strip s) with
  | [] => None
  | c :: rest =>
      if Ascii.eqb c "-"%char then Z.opp <$> digits 0 false rest
      else if Ascii.eqb c "+"%char then digits 0 false rest
      else digits 0 false (c :: rest)
  end.

End Py.

(** ** backend/rl_agent.py *)

Module RL.

(** The attributes of an [RLAgent] that the update rule reads and
    writes. [q_values] is the in-memory dictionary keyed by
    [(user_id, movie_id)]; every write to it is mirrored to the SQLite
    table by [_save_q_value], whose failures are only logged. *)
Record RLAgent := {
  learning_rate : Qc;
  discount_factor : Qc;
  q_values : gmap (Z * Z) Qc
}.

Definition set_q_values (a : RLAgent) (q : gmap (Z * Z) Qc) : RLAgent :=
  {| learning_rate := learning_rate a;
     discount_factor := discount_factor a;
     q_values := q |}.

(** [RLAgent.get_q_value] *)
Definition get_q_value (a : RLAgent) (user_id movie_id : Z) : Qc :=
  default 0 (q_values a !! (user_id, movie_id)).

(** [RLAgent.update_q_value]: the new value and the agent after the
    write. *)
Definition update_q_value (a : RLAgent) (user_id movie_id : Z)
    (reward next_max : Qc) : Qc * RLAgent :=
  let current_q := get_q_value a user_id movie_id in
  let new_q :=
    current_q
    + learning_rate a * (reward + discount_factor a * next_max - current_q) in
  (new_q, set_q_values a (<[(user_id, movie_id) := new_q]> (q_values a))).

(** The [for] loop of [adjust_recommendations]: the appended pairs, in
    the order of the candidates, and the agent after the last update. *)
Fixpoint adjust_loop (a : RLAgent) (user_id : Z) (feedback : gmap Z Qc)
    (next_max : Qc) (recommendations : list (Z * Qc))
    : list (Z * Qc) * RLAgent :=
  match recommendations with
  | [] => ([], a)
  | (movie_id, score) :: rest =>
      let reward := default 0 (feedback !! movie_id) in
      let '(new_q, a1) := update_q_value a user_id movie_id reward next_max in
      let adjusted_score := dec 0.7 * score + dec 0.3 * new_q in
      let '(out, a2) := adjust_loop a1 user_id feedback next_max rest in
      ((movie_id, adjusted_score) :: out, a2)
  end.

(** The right-hand side of the update rule for an agent's rates. *)
Definition td_target (a : RLAgent) (current_q reward next_max : Qc) : Qc :=
  current_q
  + learning_rate a * (reward + discount_factor a * next_max - current_q).

(** The agent once the loop has processed the first [n] candidates. *)
Definition agent_after (a : RLAgent) (user_id : Z) (feedback : gmap Z Qc)
    (next_max : Qc) (recommendations : list (Z * Qc)) (n : nat) : RLAgent :=
  snd (adjust_loop a user_id feedback next_max (take n recommendations)).

(** The [next_max] of a batch. *)
Definition batch_next_max (a : RLAgent) (user_id : Z)
    (recommendations : list (Z * Qc)) : Qc :=
  Py.max_default 0 (map (fun r => get_q_value a user_id (fst r)) recommendations).

(** [RLAgent.adjust_recommendations] *)
Definition adjust_recommendations (a : RLAgent) (user_id : Z)
    (recommendations : list (Z * Qc)) (feedback : gmap Z Qc)
    : list (Z * Qc) * RLAgent :=
  let next_max := batch_next_max a user_id recommendations in
  let '(updated, a') :=
    adjust_loop a user_id feedback next_max recommendations in
  (Py.sort_desc snd updated, a').

End RL.

(** ** backend/content_filtering.py *)

Module Content.

(** A row of the movies table read from [u.item]. A cell that the file
    leaves empty is a missing value ([None]): not a string, so slicing
    it or calling [split] on it raises. *)
Record Movie := {
  movie_id : Z;
  title : string;
  release_date : option string;
  genres : option string
}.

(** The dictionary built by [_get_movie_details], with the key
    [similarity_score] that [get_similar_movies] adds. *)
Record Details := {
  details : Movie;
  similarity_score : option Qc
}.

Record ContentBasedRecommender := {
  movies : list Movie;
  cosine_sim : option (list (list Qc))
}.

(** [_get_movie_details] *)
Definition get_movie_details (movie : Movie) : option Details :=
  Some {| details := movie; similarity_score := None |}.

(** [movies.index[movies["movie_id"] == movie_id].tolist()] *)
Fixpoint movie_indices (i : nat) (ms : list Movie) (id : Z) : list nat :=
  match ms with
  | [] => []
  | m :: ms' =>
      if (movie_id m =? id)%Z then i :: movie_indices (S i) ms' id
      else movie_indices (S i) ms' id
  end.

(** [list(enumerate(row))] *)
Fixpoint enumerate {A} (i : nat) (row : list A) : list (nat * A) :=
  match row with
  | [] => []
  | x :: row' => (i, x) :: enumerate (S i) row'
  end.

(** The loop that turns the selected [(idx, sim_score)] pairs into
    dictionaries; [None] is the [IndexError] of [movies.iloc[idx]]. *)
Fixpoint similar_loop (ms : list Movie) (sim_scores : list (nat * Qc))
    : option (list Details) :=
  match sim_scores with
  | [] => Some []
  | (idx, sim_score) :: rest =>
      movie ← ms !! idx;
      tail ← similar_loop ms rest;
      match get_movie_details movie with
      | Some d =>
          Some ({| details := details d;
                   similarity_score := Some sim_score |} :: tail)
      | None => Some tail
      end
  end.

(** [ContentBasedRecommender.get_similar_movies] *)
Definition get_similar_movies (cr : ContentBasedRecommender)
    (id : Z) (top_n : Z) : list Details :=
  match cosine_sim cr with
  | None => []
  | Some sim =>
      match movie_indices 0 (movies cr) id with
      | [] => []
      | movie_idx :: _ =>
          match sim !! movie_idx with
          | None => []
          | Some row =>
              let sim_scores := Py.sort_desc snd (enumerate 0 row) in
              let sim_scores := Py.slice 1 (top_n + 1) sim_scores in
              default [] (similar_loop (movies cr) sim_scores)
          end
      end
  end.

(** [ContentBasedRecommender.get_movie_by_id] *)
Definition get_movie_by_id (cr : ContentBasedRecommender) (id : Z)
    : option Details :=
  match filter (fun m => movie_id m = id) (movies cr) with
  | [] => None
  | movie :: _ => get_movie_details movie
  end.

End Content.

(** ** backend/hybrid_recommend.py *)

Module Hybrid.
Import Content.

(** A row of the ratings table. *)
Record Rating := {
  user_id : Z;
  rated_movie : Z
}.

(** The attributes of a [HybridRecommender] after [initialize_system]
    succeeded. [svd_model] is [None] when no model file was loaded;
    a loaded model maps [(user_id, movie_id)] to the estimate of its
    prediction, or fails ([None]) on that pair. *)
Record HybridRecommender := {
  ratings : list Rating;
  catalog : list Movie;
  content_recommender : ContentBasedRecommender;
  svd_model : option (Z -> Z -> option Qc)
}.

(** A recommendation with its title: [(movie_id, title, score)]. *)
Definition Rec : Type := Z * string * Qc.

Definition rec_score (r : Rec) : Qc := snd r.
Definition rec_id (r : Rec) : Z := fst (fst r).

(** The [for] loop of [get_cf_recommendations]; [None] when a
    prediction raises. *)
Fixpoint cf_loop (predict : Z -> Z -> option Qc) (user : Z)
    (ms : list Movie) : option (list (Z * Qc)) :=
  match ms with
  | [] => Some []
  | m :: ms' =>
      est ← predict user (movie_id m);
      tail ← cf_loop predict user ms';
      Some ((movie_id m, est) :: tail)
  end.

(** [HybridRecommender.get_cf_recommendations] *)
Definition get_cf_recommendations (h : HybridRecommender)
    (user : Z) (n : Z) : list (Z * Qc) :=
  match svd_model h with
  | None => []
  | Some predict =>
      match cf_loop predict user (catalog h) with
      | Some cf_recommendations =>
          Py.slice_to (n * 2) (Py.sort_desc snd cf_recommendations)
      | None => []
      end
  end.

(** The boost factor that [apply_temporal_boost] gives one movie. *)
Definition temporal_boost (cr : ContentBasedRecommender)
    (current_year : Z) (id : Z) : Qc :=
  match get_movie_by_id cr id with
  | Some movie =>
      match release_date (details movie) with
      | Some date =>
          if Py.truthy date then
            match Py.int (Py.last4 date) with
            | Some release_year =>
                if (current_year - release_year <=? 5)%Z then dec 1.1
                else dec 1.0
            | None => dec 1.0
            end
          else dec 1.0
      | None => dec 1.0
      end
  | None => dec 1.0
  end.

(** [HybridRecommender.apply_temporal_boost] *)
Definition apply_temporal_boost (h : HybridRecommender) (current_year : Z)
    (recommendations : list (Z * Qc)) : list (Z * Qc) :=
  map (fun '(id, score) =>
         (id, score * temporal_boost (content_recommender h) current_year id))
      recommendations.

(** The [content_score] that [combine_with_content] reads off the
    content recommender for one movie. *)
Definition content_score (cr : ContentBasedRecommender) (id : Z) : Qc :=
  match get_similar_movies cr id 1 with
  | [] => 0
  | best :: _ => default 0 (similarity_score best)
  end.

(** The list [combined] before it is sorted. *)
Definition combined_scores (cr : ContentBasedRecommender)
    (recommendations : list (Z * Qc)) : list (Z * Qc) :=
  map (fun '(id, boosted_score) =>
         (id, dec 0.6 * boosted_score + dec 0.4 * content_score cr id))
      recommendations.

(** [HybridRecommender.combine_with_content] *)
Definition combine_with_content (h : HybridRecommender)
    (recommendations : list (Z * Qc)) : list (Z * Qc) :=
  Py.sort_desc snd (combined_scores (content_recommender h) recommendations).

(** [[g.strip() for g in genres.split("|") if g.strip()]] *)
Definition genre_list (genres : string) : list string :=
  map Py.strip
      (filter (fun g => Py.truthy (Py.strip g) = true) (Py.split "|" genres)).

(** The inner loop of [diversity_rerank] over the genres of one movie:
    the penalty and the counts after it. *)
Fixpoint genre_loop (gs : list string) (penalty : Qc)
    (genre_count : gmap string Z) : Qc * gmap string Z :=
  match gs with
  | [] => (penalty, genre_count)
  | genre :: gs' =>
      let count := default 0%Z (genre_count !! genre) in
      genre_loop gs' (penalty * (1 / (1 + Qc_of_Z count)))
                 (<[genre := (count + 1)%Z]> genre_count)
  end.

(** The outer loop of [diversity_rerank]; [None] when a movie has no
    genres cell, whose [split] raises. *)
Fixpoint diversity_loop (cr : ContentBasedRecommender)
    (recommendations : list (Z * Qc)) (genre_count : gmap string Z)
    : option (list Rec) :=
  match recommendations with
  | [] => Some []
  | (id, score) :: rest =>
      match get_movie_by_id cr id with
      | None => diversity_loop cr rest genre_count
      | Some movie =>
          genres ← Content.genres (details movie);
          let '(penalty, genre_count') :=
            genre_loop (genre_list genres) 1 genre_count in
          let adjusted_score := score * penalty in
          tail ← diversity_loop cr rest genre_count';
          Some ((id, title (details movie), adjusted_score) :: tail)
      end
  end.

(** [HybridRecommender.diversity_rerank] *)
Definition diversity_rerank (h : HybridRecommender)
    (recommendations : list (Z * Qc)) : option (list Rec) :=
  final_recs ← diversity_loop (content_recommender h) recommendations ∅;
  Some (Py.sort_desc rec_score final_recs).

(** The agent that [RLAgent()] builds from the rows of the database. *)
Definition fresh_agent (rows : gmap (Z * Z) Qc) : RL.RLAgent :=
  {| RL.learning_rate := dec 0.01;
     RL.discount_factor := dec 0.9;
     RL.q_values := rows |}.

(** [HybridRecommender.apply_rl_feedback]. The database of Q-values is
    [None] when it cannot be opened, in which case the constructor of
    the agent raises and the recommendations come back unchanged;
    otherwise the rows after the call are those the agent wrote. *)
Definition apply_rl_feedback (h : HybridRecommender)
    (db : option (gmap (Z * Z) Qc)) (user : Z) (recommendations : list Rec)
    : list Rec * option (gmap (Z * Z) Qc) :=
  match db with
  | None => (recommendations, None)
  | Some rows =>
      let rl_agent := fresh_agent rows in
      let recs := map (fun r => (rec_id r, rec_score r)) recommendations in
      let feedback : gmap Z Qc :=
        list_to_map (map (fun r => (fst r, 0)) recs) in
      let '(updated, rl_agent') :=
        RL.adjust_recommendations rl_agent user recs feedback in
      let updated_with_title :=
        map (fun '(id, adj_score) =>
               let title :=
                 match get_movie_by_id (content_recommender h) id with
                 | Some movie => Content.title (details movie)
                 | None => "Unknown"%string
                 end in
               (id, title, adj_score))
            updated in
      (updated_with_title, Some (RL.q_values rl_agent'))
  end.

(** [self.ratings[self.ratings["user_id"] == user_id].shape[0]] *)
Definition user_ratings_count (h : HybridRecommender) (user : Z) : Z :=
  Z.of_nat (length (filter (fun r => user_id r = user) (ratings h))).

(** The list returned by the cold-start branch. *)
Definition trending (h : HybridRecommender) (first_movie : Movie)
    (top_n : Z) : list Rec :=
  map (fun rec =>
         (movie_id (details rec), title (details rec),
          default 0 (similarity_score rec)))
      (get_similar_movies (content_recommender h) (movie_id first_movie) top_n).

(** The five stages after the cold-start check. *)
Definition full_pipeline (h : HybridRecommender) (current_year : Z)
    (db : option (gmap (Z * Z) Qc)) (user : Z) (top_n : Z)
    : option (list Rec) * option (gmap (Z * Z) Qc) :=
  let cf_recs := get_cf_recommendations h user top_n in
  let boosted_recs := apply_temporal_boost h current_year cf_recs in
  let combined_recs := combine_with_content h boosted_recs in
  match diversity_rerank h combined_recs with
  | None => (None, db)
  | Some diversity_recs =>
      let '(final_recs, db') := apply_rl_feedback h db user diversity_recs in
      (Some (Py.slice_to top_n final_recs), db')
  end.

(** [HybridRecommender.hybrid_recommendation]: the returned list, or
    [None] when an exception escapes, and the database afterwards. *)
Definition hybrid_recommendation (h : HybridRecommender) (current_year : Z)
    (db : option (gmap (Z * Z) Qc)) (user : Z) (top_n : Z)
    : option (list Rec) * option (gmap (Z * Z) Qc) :=
  if (user_ratings_count h user <? 5)%Z then
    match catalog h with
    | [] => (None, db)
    | first_movie :: _ => (Some (trending h first_movie top_n), db)
    end
  else full_pipeline h current_year db user top_n.

(** [get_recommendations], the public function of the module: a new
    recommender is built and asked; [recommender] is [None] when building
    it raises. Every exception ends in the empty list. *)
Definition get_recommendations (recommender : option HybridRecommender)
    (current_year : Z) (db : option (gmap (Z * Z) Qc)) (user : Z) (top_n : Z)
    : list Rec * option (gmap (Z * Z) Qc) :=
  match recommender with
  | None => ([], db)
  | Some h =>
      match hybrid_recommendation h current_year db user top_n with
      | (Some recommendations, db') => (recommendations, db')
      | (None, db') => ([], db')
      end
  end.

(** The entry that [apply_rl_feedback] rebuilds from a pair: the title is
    looked up again, [Unknown] for a movie that is not in the table. *)
Definition retitle (cr : ContentBasedRecommender) (p : Z * Qc) : Rec :=
  (fst p,
   match get_movie_by_id cr (fst p) with
   | Some movie => title (details movie)
   | None => "Unknown"%string
   end,
   snd p).

End Hybrid.

(** ** backend/fairness_re_ranker.py and backend/fairness_checks.py *)

Module Fairness.

(** A row of the ratings table read from [u.data]. *)
Record Row := {
  userId : Z;
  movieId : Z
}.

(** [ratings.groupby("movieId").size()]: the number of rows per movie,
    for the movies that have at least one. *)
Definition groupby_size (ratings : list Row) : gmap Z Z :=
  fold_left
    (fun counts r =>
       <[movieId r := (default 0 (counts !! movieId r) + 1)%Z]> counts)
    ratings ∅.

(** [movie_popularity.max()] of a non-empty series of positive counts. *)
Definition series_max (s : gmap Z Z) : Z :=
  map_fold (fun _ v acc => Z.max v acc) 0%Z s.

(** A dictionary in insertion order. *)
Definition dict : Type := list (Z * Qc).

(** [d[k] = v]: a present key keeps its place, a new key goes last. *)
Fixpoint dict_set (k : Z) (v : Qc) (d : dict) : dict :=
  match d with
  | [] => [(k, v)]
  | (k', v') :: d' =>
      if (k =? k')%Z then (k, v) :: d' else (k', v') :: dict_set k v d'
  end.

(** [d.get(k)] *)
Fixpoint dict_get (k : Z) (d : dict) : option Qc :=
  match d with
  | [] => None
  | (k', v') :: d' => if (k =? k')%Z then Some v' else dict_get k d'
  end.

(** [sorted(d, key=d.get, reverse=True)]: the keys of [d], in insertion
    order, sorted by their values. *)
Definition sorted_keys (d : dict) : list Z :=
  Py.sort_desc (fun k => default 0 (dict_get k d)) (map fst d).

(** The adjusted score that [re_rank_fair] gives one movie. *)
Definition adjusted_score (movie_popularity : gmap Z Z) (max_popularity : Z)
    (predicted_scores : gmap Z Qc) (alpha beta : Qc) (movie : Z) : Qc :=
  let pop := default 0%Z (movie_popularity !! movie) in
  let norm_pop := Qc_of_Z pop / Qc_of_Z max_popularity in
  let original_score := default 0 (predicted_scores !! movie) in
  alpha * original_score - beta * norm_pop.

(** The adjusted score that [re_rank_recommendations] gives one movie. *)
Definition adjusted_score_lambda (movie_popularity : gmap Z Z)
    (max_popularity : Z) (predicted_scores : gmap Z Qc)
    (lambda_factor : Qc) (movie : Z) : Qc :=
  let pop := default 0%Z (movie_popularity !! movie) in
  let norm_pop := Qc_of_Z pop / Qc_of_Z max_popularity in
  let original_score := default 0 (predicted_scores !! movie) in
  original_score - lambda_factor * norm_pop.

(** The [for] loop that fills [adjusted_scores]. *)
Fixpoint adjust_loop (score : Z -> Qc) (recommendations : list Z)
    (adjusted_scores : dict) : dict :=
  match recommendations with
  | [] => adjusted_scores
  | movie :: rest =>
      adjust_loop score rest (dict_set movie (score movie) adjusted_scores)
  end.

(** [re_rank_fair] of fairness_re_ranker.py; [ratings] is what
    [load_ratings()] returned, empty when the file could not be read. *)
Definition re_rank_fair (ratings : list Row) (recommendations : list Z)
    (predicted_scores : gmap Z Qc) (alpha beta : Qc) : list Z :=
  match ratings with
  | [] => recommendations
  | _ =>
      let movie_popularity := groupby_size ratings in
      if decide (movie_popularity = ∅) then recommendations
      else
        let max_popularity := series_max movie_popularity in
        let adjusted_scores :=
          adjust_loop
            (adjusted_score movie_popularity max_popularity
                            predicted_scores alpha beta)
            recommendations [] in
        sorted_keys adjusted_scores
  end.

(** [re_rank_recommendations] of fairness_checks.py; the module-level
    [ratings] is [None] when loading it failed at import, and reading
    the undefined name raises inside the [try]. *)
Definition re_rank_recommendations (ratings : option (list Row))
    (recommendations : list Z) (predicted_scores : gmap Z Qc)
    (lambda_factor : Qc) : list Z :=
  match ratings with
  | None => recommendations
  | Some rows =>
      let movie_popularity := groupby_size rows in
      if decide (movie_popularity = ∅) then recommendations
      else
        let max_popularity := series_max movie_popularity in
        let adjusted_scores :=
          adjust_loop
            (adjusted_score_lambda movie_popularity max_popularity
                                   predicted_scores lambda_factor)
            recommendations [] in
        sorted_keys adjusted_scores
  end.

(** Every value of the dictionary is the score of its key. *)
Definition scored_by (score : Z -> Qc) (d : dict) : Prop :=
  forall k v, dict_get k d = Some v -> v = score k.

(** [series.mean()] of a series of integers. *)
Definition mean (values : list Z) : Qc :=
  Qc_of_Z (foldr Z.add 0%Z values) / Qc_of_Z (Z.of_nat (length values)).

(** The sum of a list of integers. *)
Definition total (values : list Z) : Z := foldr Z.add 0%Z values.

(** [popularity_bias_score] of fairness_checks.py. [reindex] looks every
    recommended movie up, in order, and [dropna] drops the ones without
    ratings. *)
Definition popularity_bias_score (ratings : option (list Row))
    (recommendations : list Z) : Qc :=
  match ratings with
  | None => 0
  | Some rows =>
      let movie_popularity := groupby_size rows in
      let rec_popularity :=
        omap (fun movie => movie_popularity !! movie) recommendations in
      match rec_popularity with
      | [] => 0
      | _ =>
          let recommended_popularity := mean rec_popularity in
          let overall_popularity :=
            mean (map snd (map_to_list movie_popularity)) in
          if decide (overall_popularity = 0) then 0
          else recommended_popularity / overall_popularity
      end
  end.

(** The movies of a list, each at its first occurrence. *)
Fixpoint first_occurrences (l : list Z) : list Z :=
  match l with
  | [] => []
  | x :: l' => x :: filter (fun y => y <> x) (first_occurrences l')
  end.

(** The number of rows that rate a movie. *)
Definition rating_count (rows : list Row) (movie : Z) : Z :=
  Z.of_nat (length (filter (fun r => movieId r = movie) rows)).

(** A row of the movies table that [load_movies] of fairness_checks.py
    reads; the cell under [genres] is [None] when it is not a string (an
    empty field is read as NaN). *)
Record MovieRow := {
  row_movie_id : Z;
  row_genres : option string
}.

(** [len(set(genres.split("|")))] *)
Definition unique_genres (genres : string) : Z :=
  Z.of_nat (length (remove_dups (Py.split "|" genres))).

(** [[len(set(genres.split("|"))) for genres in ... if genres]]: a cell
    that is not a string is truthy and has no [split], which raises. *)
Fixpoint unique_genres_per_movie (rows : list MovieRow) : option (list Z) :=
  match rows with
  | [] => Some []
  | r :: rest =>
      match row_genres r with
      | None => None
      | Some genres =>
          match unique_genres_per_movie rest with
          | None => None
          | Some counts =>
              Some (if Py.truthy genres then unique_genres genres :: counts
                    else counts)
          end
      end
  end.

(** [diversity_score] of fairness_checks.py; the module-level [movies] is
    [None] when loading it failed at import. *)
Definition diversity_score (movies : option (list MovieRow))
    (recommendations : list Z) : Qc :=
  match movies with
  | None => 0
  | Some table =>
      let recommended_movies :=
        filter (fun r => row_movie_id r ∈ recommendations) table in
      match recommended_movies with
      | [] => 0
      | _ =>
          match unique_genres_per_movie recommended_movies with
          | None => 0
          | Some [] => 0
          | Some counts => mean counts
          end
      end
  end.

End Fairness.

(** ** Orders on result lists *)

(** [desc key a b]: [a] may stand before [b] in a list that is
    descending by [key]. *)
Definition desc {A} (key : A -> Qc) (a b : A) : Prop := key b ≤ key a.

Global Instance desc_dec {A} (key : A -> Qc) : RelDecision (desc key) :=
  fun a b => Qc_le_dec (key b) (key a).

(** The order that a tie-break by identifier would give: of two entries with the
    same score, the one with the smaller movie identifier comes first. *)
Definition ties_by_id (out : list Hybrid.Rec) : Prop :=
  forall i j a b,
    out !! i = Some a -> out !! j = Some b -> (i < j)%nat ->
    Hybrid.rec_score a = Hybrid.rec_score b ->
    (Hybrid.rec_id a <= Hybrid.rec_id b)%Z.

(** ** Concrete inputs used by the examples below *)

Module Examples.

(** An agent with the rates of the controlled test of the update rule
    and one stored value, [Q(1, 10) = 1]. *)
Definition controlled_agent : RL.RLAgent :=
  {| RL.learning_rate := dec 0.1;
     RL.discount_factor := dec 0.9;
     RL.q_values := {[ (1%Z, 10%Z) := 1 ]} |}.

(** The agent of the example at the end of rl_agent.py, with an empty
    table. *)
Definition demo_agent : RL.RLAgent :=
  {| RL.learning_rate := dec 0.05;
     RL.discount_factor := dec 0.95;
     RL.q_values := ∅ |}.

Definition demo_recommendations : list (Z * Qc) :=
  [(1%Z, dec 4.5); (2%Z, dec 4.2); (3%Z, dec 3.8)].

Definition demo_feedback : gmap Z Qc :=
  <[1%Z := 1]> (<[2%Z := -1]> (<[3%Z := 0]> ∅)).

Definition movie1 : Content.Movie :=
  {| Content.movie_id := 1; Content.title := "Movie 1";
     Content.release_date := Some "01-Jan-1995"%string;
     Content.genres := Some "Action"%string |}.

Definition movie2 : Content.Movie :=
  {| Content.movie_id := 2; Content.title := "Movie 2";
     Content.release_date := Some "01-Jan-1995"%string;
     Content.genres := Some "Drama"%string |}.

Definition movie3 : Content.Movie :=
  {| Content.movie_id := 3; Content.title := "Movie 3";
     Content.release_date := Some "01-Jan-1996"%string;
     Content.genres := Some "Action"%string |}.

Definition movie4 : Content.Movie :=
  {| Content.movie_id := 4; Content.title := "Movie 4";
     Content.release_date := None;
     Content.genres := Some "Comedy|Drama"%string |}.

Definition four_movies : list Content.Movie :=
  [movie1; movie2; movie3; movie4].

(** A content recommender whose similarity matrix was not computed. *)
Definition no_index : Content.ContentBasedRecommender :=
  {| Content.movies := four_movies; Content.cosine_sim := None |}.

(** A content recommender with a similarity matrix. *)
Definition with_index : Content.ContentBasedRecommender :=
  {| Content.movies := four_movies;
     Content.cosine_sim :=
       Some [[dec 1.0; dec 0.5; dec 0.25; dec 0.0];
             [dec 0.5; dec 1.0; dec 0.0; dec 0.75];
             [dec 0.25; dec 0.0; dec 1.0; dec 0.5];
             [dec 0.0; dec 0.75; dec 0.5; dec 1.0]] |}.

(** [n] ratings by user 1. *)
Definition ratings_of_user_1 (n : nat) : list Hybrid.Rating :=
  map (fun m => {| Hybrid.user_id := 1; Hybrid.rated_movie := Z.of_nat m |})
      (seq 1 n).

(** A model that scores every movie by its identifier. *)
Definition predict_all (user movie : Z) : option Qc := Some (Qc_of_Z movie).

(** A model that fails on movie 2 and scores the others. *)
Definition predict_partial (user movie : Z) : option Qc :=
  if (movie =? 2)%Z then None else Some (Qc_of_Z movie).

Definition recommender (cr : Content.ContentBasedRecommender)
    (n_ratings : nat) (model : option (Z -> Z -> option Qc))
    : Hybrid.HybridRecommender :=
  {| Hybrid.ratings := ratings_of_user_1 n_ratings;
     Hybrid.catalog := four_movies;
     Hybrid.content_recommender := cr;
     Hybrid.svd_model := model |}.

(** Rows of [u.data]: movie 2 rated twice, movie 1 once. *)
Definition three_rows : list Fairness.Row :=
  [{| Fairness.userId := 1; Fairness.movieId := 2 |};
   {| Fairness.userId := 2; Fairness.movieId := 2 |};
   {| Fairness.userId := 1; Fairness.movieId := 1 |}].

Definition equal_scores : gmap Z Qc :=
  <[1%Z := dec 4.0]> (<[2%Z := dec 4.0]> ∅).

(** Rows of the movies table: two genres, one genre twice, and a cell
    that is not a string. *)
Definition genre_rows : list Fairness.MovieRow :=
  [{| Fairness.row_movie_id := 1;
      Fairness.row_genres := Some "Action|Comedy"%string |};
   {| Fairness.row_movie_id := 2;
      Fairness.row_genres := Some "Drama|Drama"%string |};
   {| Fairness.row_movie_id := 3; Fairness.row_genres := None |}].

End Examples.

(** * Properties *)

(** ** The built-ins *)

Section Order.

Lemma Qc_leb_le x y : Qc_leb x y = true <-> x ≤ y.
Proof. unfold Qc_leb, Qcle. apply Qle_bool_iff. Qed.

Lemma Qc_leb_gt x y : Qc_leb x y = false -> y ≤ x.
Proof.
  intros H. destruct (Qc_le_total x y) as [Hxy | Hyx]; [| done].
  apply Qc_leb_le in Hxy. congruence.
Qed.

Lemma Qc_leb_lt x y : Qc_leb x y = false <-> y < x.
Proof.
  rewrite Qclt_nge, <- Qc_leb_le. destruct (Qc_leb x y); naive_solver.
Qed.

Lemma Qc_ltb_lt x y : Qc_ltb x y = true <-> x < y.
Proof.
  unfold Qc_ltb. rewrite negb_true_iff. apply Qc_leb_lt.
Qed.

End Order.

Section SortFacts.
Context {A : Type} (key : A -> Qc).
Implicit Types (x : A) (l : list A).

Lemma insert_desc_perm x l : Py.insert_desc key x l ≡ₚ x :: l.
Proof.
  induction l as [| y l IH]; simpl; [done |].
  destruct (Qc_leb (key y) (key x)); [done |].
  rewrite IH. apply Permutation_swap.
Qed.

Lemma sort_desc_perm l : Py.sort_desc key l ≡ₚ l.
Proof.
  induction l as [| x l IH]; simpl; [done |].
  by rewrite insert_desc_perm, IH.
Qed.

Lemma insert_desc_sorted x l :
  StronglySorted (desc key) l ->
  StronglySorted (desc key) (Py.insert_desc key x l).
Proof.
  induction l as [| y l IH]; simpl; intros Hs.
  - repeat constructor.
  - apply StronglySorted_inv in Hs as [Hl Hy].
    destruct (Qc_leb (key y) (key x)) eqn:E.
    + apply Qc_leb_le in E.
      constructor; [by constructor |].
      constructor; [done |].
      eapply Forall_impl; [apply Hy |].
      intros z Hz. unfold desc in *. by etrans.
    + apply Qc_leb_gt in E.
      constructor; [by apply IH |].
      rewrite insert_desc_perm. by constructor.
Qed.

Lemma sort_desc_sorted l : StronglySorted (desc key) (Py.sort_desc key l).
Proof.
  induction l as [| x l IH]; simpl; [constructor |].
  by apply insert_desc_sorted.
Qed.

(** Stability: the elements that share a key keep their order. *)
Lemma insert_desc_stable (k : Qc) x l :
  filter (fun y => key y = k) (Py.insert_desc key x l)
  = filter (fun y => key y = k) (x :: l).
Proof.
  induction l as [| y l IH]; simpl; [done |].
  destruct (Qc_leb (key y) (key x)) eqn:E; [done |].
  apply Qc_leb_lt in E.
  rewrite (filter_cons _ y (Py.insert_desc key x l)), IH.
  rewrite !filter_cons.
  destruct (decide (key x = k)) as [Hx | Hx]; [| done].
  destruct (decide (key y = k)) as [Hy | Hy]; [| done].
  exfalso. rewrite Hx, Hy in E. by apply (irreflexivity Qclt k).
Qed.

Lemma sort_desc_stable (k : Qc) l :
  filter (fun y => key y = k) (Py.sort_desc key l)
  = filter (fun y => key y = k) l.
Proof.
  induction l as [| x l IH]; simpl; [done |].
  by rewrite insert_desc_stable, !filter_cons, IH.
Qed.

Lemma sort_desc_length l : length (Py.sort_desc key l) = length l.
Proof. by rewrite sort_desc_perm. Qed.

(** A list that is already descending is left as it is. *)
Lemma sort_desc_id l :
  StronglySorted (desc key) l -> Py.sort_desc key l = l.
Proof.
  induction l as [| x l IH]; simpl; intros Hs; [done |].
  apply StronglySorted_inv in Hs as [Hl Hx].
  rewrite (IH Hl). destruct l as [| y l]; simpl; [done |].
  apply Forall_cons in Hx as [Hxy _].
  apply Qc_leb_le in Hxy. by rewrite Hxy.
Qed.

End SortFacts.

Section SliceFacts.
Context {A : Type}.
Implicit Types (l : list A).

Lemma slice_sublist lo hi l : Py.slice lo hi l `sublist_of` l.
Proof.
  unfold Py.slice. etrans; [apply sublist_take | apply sublist_drop].
Qed.

Lemma slice_sorted (R : relation A) lo hi l :
  StronglySorted R l -> StronglySorted R (Py.slice lo hi l).
Proof.
  intros Hs. unfold Py.slice.
  set (n := Z.to_nat _). set (k := Z.to_nat _).
  rewrite <- (take_drop k l) in Hs.
  apply StronglySorted_app_1_r in Hs.
  rewrite <- (take_drop n (drop k l)) in Hs.
  by apply StronglySorted_app_1_l in Hs.
Qed.

Lemma slice_to_length (hi : Z) l :
  (0 <= hi)%Z -> (Z.of_nat (length (Py.slice_to hi l)) <= hi)%Z.
Proof.
  intros Hhi. unfold Py.slice_to, Py.slice, Py.clamp_index.
  rewrite length_take. simpl.
  destruct (hi <? 0)%Z eqn:E; lia.
Qed.

Lemma slice_1_length (n : Z) l :
  (0 <= n)%Z -> (Z.of_nat (length (Py.slice 1 (n + 1) l)) <= n)%Z.
Proof.
  intros Hn. unfold Py.slice, Py.clamp_index.
  rewrite length_take, length_drop.
  destruct (n + 1 <? 0)%Z eqn:E; destruct (1 <? 0)%Z eqn:E1; lia.
Qed.

End SliceFacts.

Section MaxFacts.

Let pick (best item : Qc) : Qc := if Qc_ltb best item then item else best.

Lemma fold_pick_spec (rest : list Qc) (x : Qc) :
  fold_left pick rest x ∈ x :: rest
  /\ Forall (fun y => y ≤ fold_left pick rest x) (x :: rest).
Proof.
  revert x. induction rest as [| y rest IH]; intros x; simpl.
  - split; [set_solver | by repeat constructor].
  - destruct (IH (pick x y)) as [Hin Hall].
    apply Forall_cons in Hall as [Hp Hrest].
    assert (x ≤ pick x y /\ y ≤ pick x y) as [Hx Hy].
    { unfold pick. destruct (Qc_ltb x y) eqn:E.
      - apply Qc_ltb_lt in E. split; [by apply Qclt_le_weak | done].
      - split; [done |]. unfold Qc_ltb in E.
        apply negb_false_iff in E. by apply Qc_leb_le in E. }
    split.
    + apply elem_of_cons in Hin as [Hin | Hin].
      * rewrite Hin. unfold pick.
        destruct (Qc_ltb x y); [right; left | left].
      * by do 2 right.
    + constructor; [by etrans |]. constructor; [by etrans | done].
Qed.

Lemma max_default_spec (d : Qc) (l : list Qc) :
  l <> [] ->
  Py.max_default d l ∈ l /\ Forall (fun y => y ≤ Py.max_default d l) l.
Proof.
  destruct l as [| x rest]; [done | intros _].
  apply fold_pick_spec.
Qed.

Lemma max_default_perm (d : Qc) (l l' : list Qc) :
  l ≡ₚ l' -> Py.max_default d l = Py.max_default d l'.
Proof.
  intros Hp. destruct l as [| x rest].
  - apply Permutation_nil_l in Hp. by subst.
  - assert (l' <> []) as Hne.
    { intros ->. by apply Permutation_nil_r in Hp. }
    destruct (max_default_spec d (x :: rest)) as [Hin Hall]; [done |].
    destruct (max_default_spec d l' Hne) as [Hin' Hall'].
    rewrite Forall_forall in Hall. rewrite Forall_forall in Hall'.
    apply (anti_symm Qcle).
    + apply Hall'. by rewrite <- Hp.
    + apply Hall. by rewrite Hp.
Qed.

End MaxFacts.

(** ** The feedback agent *)

Section AgentFacts.
Import RL.
Context (user : Z) (feedback : gmap Z Qc) (next_max : Qc).
Implicit Types (a : RLAgent) (recs : list (Z * Qc)).

Let reward (movie : Z) : Qc := default 0 (feedback !! movie).
Let loop a recs := adjust_loop a user feedback next_max recs.

Lemma update_q_value_fst a movie r :
  fst (update_q_value a user movie r next_max)
  = td_target a (get_q_value a user movie) r next_max.
Proof. reflexivity. Qed.

Lemma update_q_value_get a movie r u' m' :
  get_q_value (snd (update_q_value a user movie r next_max)) u' m'
  = if decide ((user, movie) = (u', m'))
    then td_target a (get_q_value a user movie) r next_max
    else get_q_value a u' m'.
Proof.
  unfold get_q_value at 1. simpl. rewrite lookup_insert.
  by case_decide.
Qed.

Lemma td_target_rates a a' q r :
  learning_rate a' = learning_rate a ->
  discount_factor a' = discount_factor a ->
  td_target a' q r next_max = td_target a q r next_max.
Proof. unfold td_target. by intros -> ->. Qed.

Lemma adjust_loop_cons a movie score recs :
  loop a ((movie, score) :: recs)
  = let a1 := snd (update_q_value a user movie (reward movie) next_max) in
    ((movie,
      dec 0.7 * score
      + dec 0.3 * td_target a (get_q_value a user movie) (reward movie) next_max)
       :: fst (loop a1 recs),
     snd (loop a1 recs)).
Proof.
  unfold loop. simpl. by destruct (adjust_loop _ _ _ _ recs).
Qed.

Lemma adjust_loop_rates a recs :
  learning_rate (snd (loop a recs)) = learning_rate a
  /\ discount_factor (snd (loop a recs)) = discount_factor a.
Proof.
  revert a. induction recs as [| [movie score] recs IH]; intros a; [done |].
  rewrite adjust_loop_cons. simpl. by destruct (IH (set_q_values a
    (<[(user, movie) := td_target a (get_q_value a user movie)
                                  (reward movie) next_max]> (q_values a)))).
Qed.

Lemma adjust_loop_ids a recs : (fst (loop a recs)).*1 = recs.*1.
Proof.
  revert a. induction recs as [| [movie score] recs IH]; intros a; [done |].
  rewrite adjust_loop_cons. simpl. by rewrite IH.
Qed.

Lemma agent_after_0 a recs :
  agent_after a user feedback next_max recs 0 = a.
Proof. reflexivity. Qed.

Lemma agent_after_S a movie score recs n :
  agent_after a user feedback next_max ((movie, score) :: recs) (S n)
  = agent_after
      (snd (update_q_value a user movie (reward movie) next_max))
      user feedback next_max recs n.
Proof.
  unfold agent_after. rewrite firstn_cons.
  fold (loop a ((movie, score) :: take n recs)).
  by rewrite adjust_loop_cons.
Qed.

Lemma agent_after_all a recs :
  agent_after a user feedback next_max recs (length recs) = snd (loop a recs).
Proof. unfold agent_after. by rewrite firstn_all. Qed.

(** Each step of the loop is one application of the update rule to the
    value that the agent holds at that point. *)
Lemma agent_after_step a recs i movie score :
  recs !! i = Some (movie, score) ->
  get_q_value (agent_after a user feedback next_max recs (S i)) user movie
  = td_target a
      (get_q_value (agent_after a user feedback next_max recs i) user movie)
      (reward movie) next_max.
Proof.
  revert a i. induction recs as [| [m s] recs IH]; intros a i Hi; [done |].
  destruct i as [| i]; simpl in Hi.
  - injection Hi as -> ->.
    rewrite agent_after_S, !agent_after_0, update_q_value_get.
    by rewrite decide_True.
  - rewrite !agent_after_S, (IH _ _ Hi). by apply td_target_rates.
Qed.

(** The appended pairs, by position. *)
Lemma adjust_loop_imap a recs :
  fst (loop a recs)
  = imap (fun i r =>
            (fst r,
             dec 0.7 * snd r
             + dec 0.3
               * get_q_value
                   (agent_after a user feedback next_max recs (S i))
                   user (fst r)))
         recs.
Proof.
  revert a. induction recs as [| [m s] recs IH]; intros a; [done |].
  rewrite adjust_loop_cons. simpl. f_equal.
  - rewrite agent_after_S, agent_after_0, update_q_value_get.
    by rewrite decide_True.
  - rewrite IH. apply imap_ext. intros i [m' s'] _. simpl.
    by rewrite (agent_after_S a m s recs (S i)).
Qed.

(** With distinct movies, the store after the loop holds one update per
    candidate, computed from the value before the loop. *)
Lemma adjust_loop_lookup a recs :
  NoDup recs.*1 ->
  forall u' m',
    q_values (snd (loop a recs)) !! (u', m')
    = if decide (u' = user /\ m' ∈ recs.*1)
      then Some (td_target a (get_q_value a user m') (reward m') next_max)
      else q_values a !! (u', m').
Proof.
  revert a. induction recs as [| [m s] recs IH]; intros a Hnd u' m'.
  - simpl. case_decide as H; [| done]. destruct H as [_ H]. by inversion H.
  - rewrite fmap_cons in Hnd. apply NoDup_cons in Hnd as [Hm Hnd].
    rewrite adjust_loop_cons. cbv zeta.
    set (a1 := snd (update_q_value a user m (reward m) next_max)).
    rewrite fmap_cons. simpl snd. simpl fst. rewrite (IH a1 Hnd).
    destruct (decide (u' = user /\ m' ∈ recs.*1)) as [[-> Hin] | Hn].
    + rewrite decide_True by (split; [done | by right]).
      f_equal. rewrite (td_target_rates a a1) by done.
      f_equal. unfold a1. rewrite update_q_value_get.
      rewrite decide_False; [done |]. intros [= ->]. done.
    + unfold a1. simpl. rewrite lookup_insert.
      destruct (decide ((user, m) = (u', m'))) as [[= <- <-] | Hne].
      * by rewrite decide_True by (split; [done | left]).
      * rewrite decide_False; [done |].
        intros [-> Hin]. apply elem_of_cons in Hin as [-> | Hin]; [done |].
        by apply Hn.
Qed.

Lemma adjust_loop_get a recs movie :
  NoDup recs.*1 -> movie ∈ recs.*1 ->
  get_q_value (snd (loop a recs)) user movie
  = td_target a (get_q_value a user movie) (reward movie) next_max.
Proof.
  intros Hnd Hin. unfold get_q_value at 1.
  rewrite (adjust_loop_lookup a recs Hnd). by rewrite decide_True.
Qed.

(** With distinct movies, a candidate's value is not written again
    once its step is done. *)
Lemma agent_after_final a recs i movie score :
  NoDup recs.*1 ->
  recs !! i = Some (movie, score) ->
  get_q_value (agent_after a user feedback next_max recs (S i)) user movie
  = get_q_value (snd (loop a recs)) user movie.
Proof.
  intros Hnd Hi.
  assert (movie ∈ (take (S i) recs).*1) as Hin.
  { apply list_elem_of_fmap. exists (movie, score). split; [done |].
    apply list_elem_of_lookup. exists i.
    rewrite lookup_take_lt by lia. done. }
  assert (NoDup (take (S i) recs).*1) as Hnd'.
  { rewrite <- (take_drop (S i) recs), fmap_app in Hnd.
    by apply NoDup_app in Hnd as [? _]. }
  unfold agent_after. fold (loop a (take (S i) recs)).
  rewrite (adjust_loop_get _ _ _ Hnd' Hin).
  rewrite adjust_loop_get; [done | done |].
  apply list_elem_of_fmap. exists (movie, score). split; [done |].
  by eapply list_elem_of_lookup_2.
Qed.

End AgentFacts.

(** ** Claims about the feedback agent *)

Lemma Qc_eq_Qeq (x y : Qc) : x = y <-> (this x == this y)%Q.
Proof. split; [by intros -> | apply Qc_is_canon]. Qed.

Lemma adjust_recommendations_unfold a user recs feedback :
  RL.adjust_recommendations a user recs feedback
  = (Py.sort_desc snd
       (fst (RL.adjust_loop a user feedback
               (RL.batch_next_max a user recs) recs)),
     snd (RL.adjust_loop a user feedback (RL.batch_next_max a user recs) recs)).
Proof.
  unfold RL.adjust_recommendations. by destruct (RL.adjust_loop _ _ _ _ _).
Qed.

(** With distinct movies, every appended pair blends the score with the
    value that the store holds when the loop is over. *)
Lemma adjust_loop_map a user feedback next_max recs :
  NoDup recs.*1 ->
  fst (RL.adjust_loop a user feedback next_max recs)
  = map (fun r =>
           (fst r,
            dec 0.7 * snd r
            + dec 0.3
              * RL.get_q_value
                  (snd (RL.adjust_loop a user feedback next_max recs))
                  user (fst r)))
        recs.
Proof.
  intros Hnd. rewrite adjust_loop_imap.
  rewrite <- (imap_const (fun r : Z * Qc => _) recs).
  apply imap_ext. intros i [m s] Hi. simpl.
  by rewrite (agent_after_final user feedback next_max a recs i m s Hnd Hi).
Qed.

(** C8 as stated fails: with learning rate 0.1, discount 0.9, reward 1.0
    and [next_max = Q_before = 1], [update_q_value] returns 1.09 and not
    [Q_before + 0.1 = 1.1]. *)
Lemma update_q_value_controlled_counterexample :
  let a := Examples.controlled_agent in
  let q_before := RL.get_q_value a 1 10 in
  RL.learning_rate a = dec 0.1
  /\ RL.discount_factor a = dec 0.9
  /\ q_before = 1
  /\ fst (RL.update_q_value a 1 10 1 q_before) = dec 1.09
  /\ fst (RL.update_q_value a 1 10 1 q_before) <> q_before + dec 0.1.
Proof.
  repeat split; try (apply Qc_eq_Qeq; by vm_compute).
  rewrite Qc_eq_Qeq. by vm_compute.
Qed.

(** C8, amended: with learning rate 0.1, discount 0.9, reward 1.0 and
    [next_max = Q_before], [update_q_value] returns
    [Q_before + 0.1 * (1.0 + 0.9 * Q_before - Q_before)], that is
    [Q_before + 0.1 - 0.01 * Q_before], stores it under the pair, and the
    result is [Q_before + 0.1] exactly when [Q_before] is zero. *)
Theorem update_q_value_controlled (a : RL.RLAgent) (user movie : Z) :
  RL.learning_rate a = dec 0.1 ->
  RL.discount_factor a = dec 0.9 ->
  let q_before := RL.get_q_value a user movie in
  let updated := RL.update_q_value a user movie 1 q_before in
  fst updated = q_before + dec 0.1 * (1 + dec 0.9 * q_before - q_before)
  /\ fst updated = q_before + dec 0.1 - dec 0.01 * q_before
  /\ RL.get_q_value (snd updated) user movie = fst updated
  /\ (fst updated = q_before + dec 0.1 <-> q_before = 0).
Proof.
  intros Hlr Hdf q_before updated.
  assert (fst updated
          = q_before + dec 0.1 * (1 + dec 0.9 * q_before - q_before)) as E.
  { unfold updated. rewrite update_q_value_fst. unfold RL.td_target.
    by rewrite Hlr, Hdf. }
  assert (q_before + dec 0.1 * (1 + dec 0.9 * q_before - q_before)
          = q_before + dec 0.1 - dec 0.01 * q_before) as E'.
  { apply Qc_eq_Qeq. unfold dec. simpl. rewrite !Qred_correct. ring. }
  split; [done |]. split; [by rewrite E |]. split.
  - unfold updated. rewrite update_q_value_get. by rewrite decide_True.
  - rewrite E, E', !Qc_eq_Qeq. unfold dec. simpl. rewrite !Qred_correct.
    split; intros H; lra.
Qed.

Lemma update_q_value_controlled_witness :
  fst (RL.update_q_value Examples.controlled_agent 1 10 1
         (RL.get_q_value Examples.controlled_agent 1 10))
  = RL.get_q_value Examples.controlled_agent 1 10 + dec 0.1
    - dec 0.01 * RL.get_q_value Examples.controlled_agent 1 10.
Proof.
  apply (update_q_value_controlled Examples.controlled_agent 1 10);
    reflexivity.
Defined.

(** C6: the list returned by [adjust_recommendations] is descending by
    adjusted score, and it holds, for each candidate, the pair of its
    movie with [0.7 * score + 0.3 * Q], where [Q] is the value stored for
    the pair by the candidate's update. That update starts from the value
    held before it, which is 0.0 for a pair without a row, and, when the
    movies of the batch are distinct, its result is the value the store
    holds once the whole batch is processed. *)
Theorem adjust_recommendations_final_score
    (a : RL.RLAgent) (user : Z) (recs : list (Z * Qc)) (feedback : gmap Z Qc) :
  let next_max := RL.batch_next_max a user recs in
  let at_step := RL.agent_after a user feedback next_max recs in
  let result := RL.adjust_recommendations a user recs feedback in
  StronglySorted (desc snd) (fst result)
  /\ fst result
     ≡ₚ imap (fun i r =>
                (fst r,
                 dec 0.7 * snd r
                 + dec 0.3 * RL.get_q_value (at_step (S i)) user (fst r)))
             recs
  /\ (forall i movie score,
        recs !! i = Some (movie, score) ->
        RL.get_q_value (at_step (S i)) user movie
        = RL.td_target a (RL.get_q_value (at_step i) user movie)
            (default 0 (feedback !! movie)) next_max
        /\ (RL.q_values (at_step i) !! (user, movie) = None ->
            RL.get_q_value (at_step i) user movie = 0)
        /\ (NoDup recs.*1 ->
            RL.get_q_value (at_step (S i)) user movie
            = RL.get_q_value (snd result) user movie)).
Proof.
  intros next_max at_step result. unfold result.
  rewrite adjust_recommendations_unfold. fold next_max. simpl fst. simpl snd.
  split; [apply sort_desc_sorted |]. split.
  - rewrite sort_desc_perm. by rewrite adjust_loop_imap.
  - intros i movie score Hi. split; [| split].
    + by apply (agent_after_step user feedback next_max a recs i movie score).
    + intros Hnone. unfold RL.get_q_value. by rewrite Hnone.
    + intros Hnd.
      by apply (agent_after_final user feedback next_max a recs i movie score).
Qed.

Lemma adjust_recommendations_final_score_witness :
  RL.get_q_value
    (RL.agent_after Examples.demo_agent 1 Examples.demo_feedback
       (RL.batch_next_max Examples.demo_agent 1 Examples.demo_recommendations)
       Examples.demo_recommendations 2) 1 2
  = RL.get_q_value
      (snd (RL.adjust_recommendations Examples.demo_agent 1
              Examples.demo_recommendations Examples.demo_feedback)) 1 2.
Proof.
  destruct (adjust_recommendations_final_score Examples.demo_agent 1
              Examples.demo_recommendations Examples.demo_feedback)
    as (_ & _ & H).
  destruct (H 1%nat 2%Z (dec 4.2) eq_refl) as (_ & _ & Hfinal).
  apply Hfinal. apply (bool_decide_unpack _). by vm_compute.
Defined.

Lemma RLAgent_eq (a b : RL.RLAgent) :
  RL.learning_rate a = RL.learning_rate b ->
  RL.discount_factor a = RL.discount_factor b ->
  RL.q_values a = RL.q_values b ->
  a = b.
Proof. destruct a, b. simpl. by intros -> -> ->. Qed.

Lemma batch_next_max_perm a user (recs recs' : list (Z * Qc)) :
  recs ≡ₚ recs' -> RL.batch_next_max a user recs' = RL.batch_next_max a user recs.
Proof.
  intros Hp. unfold RL.batch_next_max. apply max_default_perm.
  by rewrite Hp.
Qed.

(** With distinct movies the agent after the loop does not depend on the
    order of the candidates. *)
Lemma adjust_loop_perm a user feedback next_max (recs recs' : list (Z * Qc)) :
  NoDup recs.*1 -> recs ≡ₚ recs' ->
  snd (RL.adjust_loop a user feedback next_max recs')
  = snd (RL.adjust_loop a user feedback next_max recs).
Proof.
  intros Hnd Hp.
  assert (NoDup recs'.*1) as Hnd' by (by rewrite <- Hp).
  apply RLAgent_eq.
  - destruct (adjust_loop_rates user feedback next_max a recs) as [-> _].
    by destruct (adjust_loop_rates user feedback next_max a recs') as [-> _].
  - destruct (adjust_loop_rates user feedback next_max a recs) as [_ ->].
    by destruct (adjust_loop_rates user feedback next_max a recs') as [_ ->].
  - apply map_eq. intros [u' m'].
    rewrite (adjust_loop_lookup user feedback next_max a recs Hnd).
    rewrite (adjust_loop_lookup user feedback next_max a recs' Hnd').
    destruct (decide (u' = user /\ m' ∈ recs.*1)) as [[-> Hin] | Hn].
    + rewrite decide_True; [done |]. split; [done |]. by rewrite <- Hp.
    + rewrite decide_False; [done |]. intros [-> Hin]. apply Hn.
      split; [done |]. by rewrite Hp.
Qed.

(** C9: for a batch of candidates with distinct movies, [next_max] is
    one number, computed from the values held before the batch, and every
    candidate's stored value after the batch is one update from its value
    before the batch with that [next_max]; a permutation of the batch has
    the same [next_max], leaves the same agent (hence the same store of
    Q-values) and returns the same pairs up to order. *)
Theorem adjust_recommendations_permutation
    (a : RL.RLAgent) (user : Z) (recs recs' : list (Z * Qc))
    (feedback : gmap Z Qc) :
  NoDup recs.*1 ->
  recs ≡ₚ recs' ->
  let next_max := RL.batch_next_max a user recs in
  let result := RL.adjust_recommendations a user recs feedback in
  let result' := RL.adjust_recommendations a user recs' feedback in
  (forall movie,
     movie ∈ recs.*1 ->
     RL.get_q_value (snd result) user movie
     = RL.td_target a (RL.get_q_value a user movie)
         (default 0 (feedback !! movie)) next_max)
  /\ RL.batch_next_max a user recs' = next_max
  /\ snd result' = snd result
  /\ RL.q_values (snd result') = RL.q_values (snd result)
  /\ fst result' ≡ₚ fst result.
Proof.
  intros Hnd Hp next_max result result'.
  assert (NoDup recs'.*1) as Hnd' by (by rewrite <- Hp).
  unfold result, result'. rewrite !adjust_recommendations_unfold.
  rewrite (batch_next_max_perm a user recs recs' Hp). fold next_max.
  simpl fst. simpl snd.
  pose proof (adjust_loop_perm a user feedback next_max recs recs' Hnd Hp)
    as Hagent.
  split; [| split; [| split; [| split]]].
  - intros movie Hin. by apply adjust_loop_get.
  - by apply batch_next_max_perm.
  - done.
  - by rewrite Hagent.
  - rewrite !sort_desc_perm.
    rewrite (adjust_loop_map a user feedback next_max recs Hnd).
    rewrite (adjust_loop_map a user feedback next_max recs' Hnd').
    rewrite Hagent. by rewrite Hp.
Qed.

Lemma adjust_recommendations_permutation_witness :
  snd (RL.adjust_recommendations Examples.demo_agent 1
         (rev Examples.demo_recommendations) Examples.demo_feedback)
  = snd (RL.adjust_recommendations Examples.demo_agent 1
           Examples.demo_recommendations Examples.demo_feedback).
Proof.
  apply (adjust_recommendations_permutation Examples.demo_agent 1
           Examples.demo_recommendations (rev Examples.demo_recommendations)
           Examples.demo_feedback).
  - apply (bool_decide_unpack _). by vm_compute.
  - apply Permutation_rev.
Defined.

(** ** The content recommender *)

Section ContentFacts.
Import Content.

(** Every dictionary that the loop of [get_similar_movies] builds has
    a similarity score, and there are no more of them than pairs. *)
Lemma similar_loop_spec ms (sim_scores : list (nat * Qc)) out :
  similar_loop ms sim_scores = Some out ->
  map (fun d => default 0 (similarity_score d)) out = map snd sim_scores
  /\ Forall (fun d => is_Some (similarity_score d)) out.
Proof.
  revert out. induction sim_scores as [| [idx s] rest IH]; intros out; simpl.
  - by intros [= <-].
  - destruct (ms !! idx) as [movie |]; simpl; [| done].
    destruct (similar_loop ms rest) as [tail |]; simpl; [| done].
    intros [= <-]. destruct (IH tail eq_refl) as [Hm Hall].
    simpl. rewrite Hm. split; [done |]. by constructor.
Qed.

(** The scores of the list that [get_similar_movies] returns are a slice
    of a descending list. *)
Lemma get_similar_movies_scores cr id top_n :
  get_similar_movies cr id top_n = []
  \/ exists row : list (nat * Qc),
       map (fun d => default 0 (similarity_score d))
           (get_similar_movies cr id top_n)
       = map snd (Py.slice 1 (top_n + 1) (Py.sort_desc snd row))
       /\ Forall (fun d => is_Some (similarity_score d))
                 (get_similar_movies cr id top_n).
Proof.
  unfold get_similar_movies.
  destruct (cosine_sim cr) as [sim |]; [| by left].
  destruct (movie_indices 0 (movies cr) id) as [| movie_idx ?]; [by left |].
  destruct (sim !! movie_idx) as [row |]; [| by left].
  destruct (similar_loop (movies cr) _) as [out |] eqn:E; [| by left].
  right. exists (enumerate 0 row). simpl.
  by apply (similar_loop_spec (movies cr)).
Qed.

Lemma get_similar_movies_length cr id top_n :
  (0 <= top_n)%Z ->
  (Z.of_nat (length (get_similar_movies cr id top_n)) <= top_n)%Z.
Proof.
  intros Hn. destruct (get_similar_movies_scores cr id top_n)
    as [-> | (row & Hm & _)]; [simpl; lia |].
  apply (f_equal length) in Hm. rewrite !length_map in Hm. rewrite Hm.
  by apply slice_1_length.
Qed.

Lemma sorted_map_key {A} (key : A -> Qc) (l : list A) :
  StronglySorted (desc key) l
  <-> StronglySorted (fun x y : Qc => y ≤ x) (map key l).
Proof.
  induction l as [| x l IH]; simpl.
  - split; constructor.
  - rewrite !StronglySorted_cons, IH, Forall_fmap. done.
Qed.

Lemma get_similar_movies_sorted cr id top_n :
  StronglySorted (desc (fun d => default 0 (similarity_score d)))
                 (get_similar_movies cr id top_n).
Proof.
  destruct (get_similar_movies_scores cr id top_n)
    as [-> | (row & Hm & _)]; [constructor |].
  apply sorted_map_key. rewrite Hm.
  apply (proj1 (sorted_map_key snd _)).
  apply slice_sorted, sort_desc_sorted.
Qed.

End ContentFacts.

(** ** Score fusion and candidate generation *)

Section FusionFacts.
Import Content Hybrid.

Lemma combined_scores_ids cr (recs : list (Z * Qc)) :
  (combined_scores cr recs).*1 = recs.*1.
Proof.
  induction recs as [| [id b] recs IH]; [done |].
  change ((combined_scores cr ((id, b) :: recs)).*1)
    with (id :: (combined_scores cr recs).*1).
  by rewrite IH.
Qed.

(** The index is asked for one match and answers with at most one. *)
Lemma content_score_spec cr id :
  (get_similar_movies cr id 1 = [] /\ content_score cr id = 0)
  \/ (exists best s,
        get_similar_movies cr id 1 = [best]
        /\ similarity_score best = Some s
        /\ content_score cr id = s).
Proof.
  unfold content_score.
  pose proof (get_similar_movies_length cr id 1 ltac:(lia)) as Hlen.
  destruct (get_similar_movies_scores cr id 1) as [E | (row & _ & Hall)].
  - left. by rewrite E.
  - destruct (get_similar_movies cr id 1) as [| best rest]; [by left |].
    right. destruct rest as [| ? ?]; [| simpl in Hlen; lia].
    apply Forall_cons in Hall as [[s Hs] _].
    exists best, s. by rewrite Hs.
Qed.

Lemma cf_loop_none predict user ms :
  cf_loop predict user ms = None
  <-> exists m, m ∈ ms /\ predict user (movie_id m) = None.
Proof.
  induction ms as [| m ms IH]; simpl.
  - split; [done | intros (m & Hin & _); by inversion Hin].
  - destruct (predict user (movie_id m)) as [est |] eqn:E; simpl.
    + destruct (cf_loop predict user ms) as [tail |]; simpl.
      * split; [done |]. intros (m' & Hin & Hm').
        apply elem_of_cons in Hin as [-> | Hin]; [congruence |].
        assert (Some tail = None) as Habs by (apply IH; by exists m').
        done.
      * split; [| done]. intros _.
        destruct (proj1 IH eq_refl) as (m' & Hin & Hm').
        exists m'. split; [by right | done].
    + split; [| done]. intros _. exists m. split; [by left | done].
Qed.

Lemma cf_loop_some predict user ms scored :
  cf_loop predict user ms = Some scored ->
  Forall2 (fun m r => fst r = movie_id m
                      /\ predict user (movie_id m) = Some (snd r))
          ms scored.
Proof.
  revert scored. induction ms as [| m ms IH]; simpl; intros scored.
  - intros [= <-]. constructor.
  - destruct (predict user (movie_id m)) as [est |] eqn:E; simpl; [| done].
    destruct (cf_loop predict user ms) as [tail |]; simpl; [| done].
    intros [= <-]. constructor; [done | by apply IH].
Qed.

End FusionFacts.

(** C7: every pair that [combine_with_content] returns carries
    [0.6 * boosted_score + 0.4 * content_score] of a candidate, where
    [content_score] is the similarity of the one match that the content
    recommender returns for the movie when asked for one, and 0.0 when it
    returns none. *)
Theorem combine_with_content_scores
    (h : Hybrid.HybridRecommender) (recs : list (Z * Qc)) :
  let cr := Hybrid.content_recommender h in
  let fused :=
    map (fun '(id, boosted_score) =>
           (id, dec 0.6 * boosted_score + dec 0.4 * Hybrid.content_score cr id))
        recs in
  Hybrid.combine_with_content h recs ≡ₚ fused
  /\ (forall id combined_score,
        (id, combined_score) ∈ Hybrid.combine_with_content h recs ->
        exists boosted_score,
          (id, boosted_score) ∈ recs
          /\ combined_score
             = dec 0.6 * boosted_score + dec 0.4 * Hybrid.content_score cr id)
  /\ (forall id,
        (Content.get_similar_movies cr id 1 = []
         /\ Hybrid.content_score cr id = 0)
        \/ (exists best s,
              Content.get_similar_movies cr id 1 = [best]
              /\ Content.similarity_score best = Some s
              /\ Hybrid.content_score cr id = s)).
Proof.
  intros cr fused.
  assert (Hybrid.combine_with_content h recs ≡ₚ fused) as Hp.
  { unfold Hybrid.combine_with_content. by rewrite sort_desc_perm. }
  split; [done |]. split; [| apply content_score_spec].
  intros id c Hin. rewrite Hp in Hin. unfold fused in Hin.
  apply list_elem_of_fmap in Hin as ([id' b] & [= -> ->] & Hin).
  by exists b.
Qed.

(** C4 as stated fails: on the candidates [(1, 1.0); (2, 2.0)], with no
    content similarity available, [combine_with_content] returns movie 2
    before movie 1. *)
Lemma combine_with_content_counterexample :
  let h := Examples.recommender Examples.no_index 5 None in
  let recs := [(1%Z, dec 1.0); (2%Z, dec 2.0)] in
  Hybrid.combine_with_content h recs = [(2%Z, dec 1.2); (1%Z, dec 0.6)]
  /\ (Hybrid.combine_with_content h recs).*1 <> recs.*1.
Proof.
  split.
  - apply (bool_decide_unpack _). by vm_compute.
  - apply (bool_decide_unpack _). by vm_compute.
Qed.

(** C4, amended: [combine_with_content] replaces each score by its
    combined score and then sorts: its result is descending by combined
    score, holds the fused candidates up to order (so the same movies),
    keeps candidates with equal combined scores in their input order, and
    keeps the input order when the combined scores are already
    descending. *)
Theorem combine_with_content_sorted
    (h : Hybrid.HybridRecommender) (recs : list (Z * Qc)) :
  let fused := Hybrid.combined_scores (Hybrid.content_recommender h) recs in
  let out := Hybrid.combine_with_content h recs in
  StronglySorted (desc snd) out
  /\ out ≡ₚ fused
  /\ out.*1 ≡ₚ recs.*1
  /\ (forall k : Qc,
        filter (fun r => snd r = k) out = filter (fun r => snd r = k) fused)
  /\ (StronglySorted (desc snd) fused -> out.*1 = recs.*1).
Proof.
  intros fused out. unfold out, Hybrid.combine_with_content. fold fused.
  split; [apply sort_desc_sorted |].
  split; [apply sort_desc_perm |].
  split; [by rewrite sort_desc_perm; unfold fused; rewrite combined_scores_ids |].
  split; [intros k; apply sort_desc_stable |].
  intros Hs. rewrite (sort_desc_id snd fused Hs).
  apply combined_scores_ids.
Qed.

Lemma combine_with_content_sorted_witness :
  (Hybrid.combine_with_content (Examples.recommender Examples.no_index 5 None)
     [(2%Z, dec 2.0); (1%Z, dec 1.0)]).*1
  = [(2%Z, dec 2.0); (1%Z, dec 1.0)].*1.
Proof.
  apply (combine_with_content_sorted
           (Examples.recommender Examples.no_index 5 None)
           [(2%Z, dec 2.0); (1%Z, dec 1.0)]).
  apply (bool_decide_unpack _). by vm_compute.
Defined.

(** C5 as stated fails: with a model that raises on movie 2 and scores
    movies 1, 3 and 4, [get_cf_recommendations] returns the empty list. *)
Lemma get_cf_recommendations_counterexample :
  let h := Examples.recommender Examples.no_index 5
             (Some Examples.predict_partial) in
  Examples.predict_partial 1 1 = Some (Qc_of_Z 1)
  /\ Examples.predict_partial 1 2 = None
  /\ Examples.predict_partial 1 3 = Some (Qc_of_Z 3)
  /\ Examples.predict_partial 1 4 = Some (Qc_of_Z 4)
  /\ Hybrid.get_cf_recommendations h 1 10 = [].
Proof. repeat split. Qed.

(** C5, amended: [get_cf_recommendations] returns the empty list when no
    model is loaded and when the model raises on any movie of the
    catalog; when the model scores every movie, it returns the scored
    movies sorted descending by score and cut to the first [2 * n]. *)
Theorem get_cf_recommendations_all_or_nothing
    (h : Hybrid.HybridRecommender) (user n : Z) :
  let out := Hybrid.get_cf_recommendations h user n in
  (Hybrid.svd_model h = None -> out = [])
  /\ (forall predict,
        Hybrid.svd_model h = Some predict ->
        (exists m, m ∈ Hybrid.catalog h
                   /\ predict user (Content.movie_id m) = None) ->
        out = [])
  /\ (forall predict,
        Hybrid.svd_model h = Some predict ->
        (forall m, m ∈ Hybrid.catalog h ->
                   is_Some (predict user (Content.movie_id m))) ->
        exists scored,
          Forall2 (fun m r => fst r = Content.movie_id m
                              /\ predict user (Content.movie_id m)
                                 = Some (snd r))
                  (Hybrid.catalog h) scored
          /\ out = Py.slice_to (n * 2) (Py.sort_desc snd scored)
          /\ StronglySorted (desc snd) out
          /\ ((0 <= n)%Z -> (Z.of_nat (length out) <= 2 * n)%Z)).
Proof.
  intros out. unfold out, Hybrid.get_cf_recommendations.
  split; [by intros -> |]. split.
  - intros predict -> Hex. apply cf_loop_none in Hex. by rewrite Hex.
  - intros predict -> Hall.
    destruct (Hybrid.cf_loop predict user (Hybrid.catalog h))
      as [scored |] eqn:E.
    + exists scored. split; [by apply cf_loop_some |]. split; [done |].
      split; [apply slice_sorted, sort_desc_sorted |].
      intros Hn.
      pose proof (slice_to_length (n * 2) (Py.sort_desc snd scored)
                    ltac:(lia)). lia.
    + apply cf_loop_none in E as (m & Hin & Hm).
      destruct (Hall m Hin) as [? ?]. congruence.
Qed.

Lemma get_cf_recommendations_all_or_nothing_witness :
  Hybrid.get_cf_recommendations
    (Examples.recommender Examples.no_index 5 (Some Examples.predict_partial))
    1 10 = [].
Proof.
  apply (get_cf_recommendations_all_or_nothing
           (Examples.recommender Examples.no_index 5
              (Some Examples.predict_partial)) 1 10)
    with (predict := Examples.predict_partial); [reflexivity |].
  exists Examples.movie2. split; [| reflexivity].
  change (Examples.movie2 ∈ Examples.four_movies).
  unfold Examples.four_movies. rewrite !elem_of_cons. auto.
Defined.

(** ** Diversity re-ranking *)

Section DiversityFacts.
Import Content Hybrid.

Lemma get_movie_by_id_some cr id d :
  get_movie_by_id cr id = Some d ->
  details d ∈ movies cr /\ movie_id (details d) = id.
Proof.
  unfold get_movie_by_id, get_movie_details.
  destruct (filter _ (movies cr)) as [| movie rest] eqn:E; [done |].
  intros [= <-]. simpl.
  assert (movie ∈ filter (fun m => movie_id m = id) (movies cr)) as Hin
    by (rewrite E; left).
  apply list_elem_of_filter in Hin as [? ?]. done.
Qed.

(** The loop processes the candidates in the order in which they are
    supplied and drops those whose movie is unknown. *)
Lemma diversity_loop_ids cr (recs : list (Z * Qc)) genre_count processed :
  diversity_loop cr recs genre_count = Some processed ->
  map rec_id processed
  = filter (fun id => is_Some (get_movie_by_id cr id)) recs.*1.
Proof.
  revert genre_count processed.
  induction recs as [| [id score] recs IH]; intros gc processed.
  - by intros [= <-].
  - rewrite fmap_cons, filter_cons. cbn [diversity_loop fst].
    destruct (get_movie_by_id cr id) as [movie |] eqn:E.
    + rewrite decide_True by done.
      destruct (genres (details movie)) as [g |]; simpl; [| done].
      destruct (genre_loop (genre_list g) 1 gc) as [penalty gc'].
      destruct (diversity_loop cr recs gc') as [tail |] eqn:Et; simpl;
        [| done].
      intros [= <-]. simpl. f_equal. by apply (IH gc').
    + rewrite decide_False by (by intros [? ?]). apply IH.
Qed.

Lemma diversity_loop_none cr (recs : list (Z * Qc)) genre_count :
  diversity_loop cr recs genre_count = None ->
  exists m, m ∈ movies cr /\ genres m = None.
Proof.
  revert genre_count.
  induction recs as [| [id score] recs IH]; intros gc; simpl; [done |].
  destruct (get_movie_by_id cr id) as [movie |] eqn:E; [| apply IH].
  destruct (genres (details movie)) as [g |] eqn:Eg; simpl.
  - destruct (genre_loop (genre_list g) 1 gc) as [penalty gc'].
    destruct (diversity_loop cr recs gc') as [tail |] eqn:Et; simpl;
      [done |].
    intros _. by apply (IH gc').
  - intros _. exists (details movie). split; [| done].
    by apply (get_movie_by_id_some cr id).
Qed.

End DiversityFacts.

(** C3 as stated fails. Movies 2 and 1, supplied in that order with the
    same combined score and disjoint genres, come out with the same
    adjusted score and movie 2 first; and the same two candidates
    supplied as [(3, 9); (1, 10)] or as [(1, 10); (3, 9)] get different
    adjusted scores, since the candidates are processed as supplied, not
    by descending combined score. *)
Lemma diversity_rerank_counterexample :
  let h := Examples.recommender Examples.no_index 5 None in
  Hybrid.diversity_rerank h [(2%Z, dec 10.0); (1%Z, dec 10.0)]
  = Some [(2%Z, "Movie 2"%string, dec 10.0); (1%Z, "Movie 1"%string, dec 10.0)]
  /\ ~ ties_by_id
        [(2%Z, "Movie 2"%string, dec 10.0); (1%Z, "Movie 1"%string, dec 10.0)]
  /\ Hybrid.diversity_rerank h [(3%Z, dec 9.0); (1%Z, dec 10.0)]
     = Some [(3%Z, "Movie 3"%string, dec 9.0); (1%Z, "Movie 1"%string, dec 5.0)]
  /\ Hybrid.diversity_rerank h [(1%Z, dec 10.0); (3%Z, dec 9.0)]
     = Some [(1%Z, "Movie 1"%string, dec 10.0); (3%Z, "Movie 3"%string, dec 4.5)].
Proof.
  split; [apply (bool_decide_unpack _); by vm_compute |].
  split; [| split; apply (bool_decide_unpack _); by vm_compute].
  intros H. specialize (H 0%nat 1%nat _ _ eq_refl eq_refl ltac:(lia) eq_refl).
  unfold Hybrid.rec_id in H. simpl in H. lia.
Qed.

(** C3, amended: [diversity_rerank] processes the candidates in the
    order in which they are supplied (it does not sort them first),
    skipping unknown movies, and returns the processed entries sorted
    descending by adjusted score, entries with equal adjusted scores in the
    order in which they were processed. *)
Theorem diversity_rerank_order
    (h : Hybrid.HybridRecommender) (recs : list (Z * Qc))
    (out : list Hybrid.Rec) :
  Hybrid.diversity_rerank h recs = Some out ->
  exists processed,
    Hybrid.diversity_loop (Hybrid.content_recommender h) recs ∅
    = Some processed
    /\ map Hybrid.rec_id processed
       = filter (fun id =>
                   is_Some (Content.get_movie_by_id
                              (Hybrid.content_recommender h) id))
                recs.*1
    /\ out ≡ₚ processed
    /\ StronglySorted (desc Hybrid.rec_score) out
    /\ (forall k : Qc,
          filter (fun r => Hybrid.rec_score r = k) out
          = filter (fun r => Hybrid.rec_score r = k) processed).
Proof.
  unfold Hybrid.diversity_rerank.
  destruct (Hybrid.diversity_loop _ recs ∅) as [processed |] eqn:E;
    simpl; [| done].
  intros [= <-]. exists processed.
  split; [done |]. split; [by apply diversity_loop_ids in E |].
  split; [apply sort_desc_perm |].
  split; [apply sort_desc_sorted |].
  intros k. apply sort_desc_stable.
Qed.

Lemma diversity_rerank_order_witness :
  exists processed,
    Hybrid.diversity_loop Examples.no_index
      [(2%Z, dec 10.0); (1%Z, dec 10.0)] ∅ = Some processed
    /\ map Hybrid.rec_id processed = [2%Z; 1%Z].
Proof.
  destruct (diversity_rerank_order
              (Examples.recommender Examples.no_index 5 None)
              [(2%Z, dec 10.0); (1%Z, dec 10.0)]
              (Py.sort_desc Hybrid.rec_score
                 [(2%Z, "Movie 2"%string, dec 10.0 * 1);
                  (1%Z, "Movie 1"%string, dec 10.0 * 1)]))
    as (processed & Hloop & Hids & _).
  - reflexivity.
  - exists processed. split; [exact Hloop |]. rewrite Hids. reflexivity.
Defined.

(** ** The orchestrator *)

Section OrchestratorFacts.
Import Content Hybrid.

Lemma apply_rl_feedback_sorted h db user (recs : list Rec) :
  StronglySorted (desc rec_score) recs ->
  StronglySorted (desc rec_score) (fst (apply_rl_feedback h db user recs)).
Proof.
  intros Hs. unfold apply_rl_feedback.
  destruct db as [rows |]; [| done].
  rewrite adjust_recommendations_unfold. cbv zeta. cbn [fst].
  apply sorted_map_key. rewrite <- list_fmap_compose.
  rewrite (list_fmap_ext _ snd) by (by intros ? [? ?]).
  apply (proj1 (sorted_map_key snd _)), sort_desc_sorted.
Qed.

Lemma trending_sorted h first_movie top_n :
  StronglySorted (desc rec_score) (trending h first_movie top_n).
Proof.
  unfold trending. apply sorted_map_key. rewrite <- list_fmap_compose.
  apply (proj1 (sorted_map_key
                  (fun d => default 0 (similarity_score d)) _)).
  apply get_similar_movies_sorted.
Qed.

Lemma trending_length h first_movie top_n :
  (0 <= top_n)%Z ->
  (Z.of_nat (length (trending h first_movie top_n)) <= top_n)%Z.
Proof.
  intros Hn. unfold trending. rewrite length_map.
  by apply get_similar_movies_length.
Qed.

Lemma diversity_rerank_sorted h (recs : list (Z * Qc)) out :
  diversity_rerank h recs = Some out -> StronglySorted (desc rec_score) out.
Proof.
  unfold diversity_rerank.
  destruct (diversity_loop _ recs ∅) as [processed |]; simpl; [| done].
  intros [= <-]. apply sort_desc_sorted.
Qed.

Lemma diversity_rerank_none h (recs : list (Z * Qc)) :
  diversity_rerank h recs = None ->
  exists m, m ∈ movies (content_recommender h) /\ genres m = None.
Proof.
  unfold diversity_rerank.
  destruct (diversity_loop _ recs ∅) as [processed |] eqn:E; simpl;
    [done |].
  intros _. by apply diversity_loop_none in E.
Qed.

Lemma full_pipeline_unfold h year db user top_n :
  full_pipeline h year db user top_n
  = match diversity_rerank h
            (combine_with_content h
               (apply_temporal_boost h year
                  (get_cf_recommendations h user top_n))) with
    | None => (None, db)
    | Some diversity_recs =>
        (Some (Py.slice_to top_n
                 (fst (apply_rl_feedback h db user diversity_recs))),
         snd (apply_rl_feedback h db user diversity_recs))
    end.
Proof.
  unfold full_pipeline. destruct (diversity_rerank h _); [| done].
  by destruct (apply_rl_feedback h db user _).
Qed.

End OrchestratorFacts.

(** C1 as stated fails for a negative [top_n]: a user with five ratings
    who asks for [top_n = -1] is returned a list of one movie, since
    [l[:-1]] drops the last element instead of returning nothing. *)
Lemma hybrid_recommendation_counterexample :
  let h := Examples.recommender Examples.no_index 5
             (Some Examples.predict_all) in
  fst (Hybrid.hybrid_recommendation h 2026 (Some ∅) 1 (-1))
  = Some [(4%Z, "Movie 4"%string, dec 1.68)]
  /\ ~ (Z.of_nat (length [(4%Z, "Movie 4"%string, dec 1.68)]) <= -1)%Z.
Proof.
  split; [apply (bool_decide_unpack _); by vm_compute | simpl; lia].
Qed.

(** C1, amended: for every user and every [top_n >= 0], the list that
    [hybrid_recommendation] returns has at most [top_n] entries; for every
    [top_n] it is descending by the score in its third component. The call
    returns no list only when it raises: in the cold-start branch on an
    empty catalog, in the full pipeline on a movie without a genres
    cell. *)
Theorem hybrid_recommendation_bounded_sorted
    (h : Hybrid.HybridRecommender) (year : Z) (db : option (gmap (Z * Z) Qc))
    (user top_n : Z) :
  match fst (Hybrid.hybrid_recommendation h year db user top_n) with
  | Some out =>
      StronglySorted (desc Hybrid.rec_score) out
      /\ ((0 <= top_n)%Z -> (Z.of_nat (length out) <= top_n)%Z)
  | None =>
      ((Hybrid.user_ratings_count h user < 5)%Z /\ Hybrid.catalog h = [])
      \/ ((5 <= Hybrid.user_ratings_count h user)%Z
          /\ exists m,
               m ∈ Content.movies (Hybrid.content_recommender h)
               /\ Content.genres m = None)
  end.
Proof.
  unfold Hybrid.hybrid_recommendation.
  destruct (Hybrid.user_ratings_count h user <? 5)%Z eqn:E.
  - apply Z.ltb_lt in E.
    destruct (Hybrid.catalog h) as [| first_movie rest]; simpl; [by left |].
    split; [apply trending_sorted | apply trending_length].
  - apply Z.ltb_ge in E. rewrite full_pipeline_unfold.
    destruct (Hybrid.diversity_rerank h _) as [diversity_recs |] eqn:Ed; simpl.
    + split.
      * apply slice_sorted, apply_rl_feedback_sorted.
        by apply diversity_rerank_sorted in Ed.
      * apply slice_to_length.
    + right. split; [done |]. by apply diversity_rerank_none in Ed.
Qed.

Lemma hybrid_recommendation_bounded_sorted_witness :
  (Z.of_nat (length [(4%Z, "Movie 4"%string, dec 1.68);
                     (3%Z, "Movie 3"%string, dec 1.26)]) <= 2)%Z.
Proof.
  pose proof (hybrid_recommendation_bounded_sorted
                (Examples.recommender Examples.no_index 5
                   (Some Examples.predict_all)) 2026 (Some ∅) 1 2) as H.
  assert (fst (Hybrid.hybrid_recommendation
                 (Examples.recommender Examples.no_index 5
                    (Some Examples.predict_all)) 2026 (Some ∅) 1 2)
          = Some [(4%Z, "Movie 4"%string, dec 1.68);
                  (3%Z, "Movie 3"%string, dec 1.26)]) as E
    by (apply (bool_decide_unpack _); by vm_compute).
  rewrite E in H. destruct H as [_ H]. apply H. lia.
Defined.

(** C2: a user with fewer than five ratings, in particular with exactly
    four, gets the list of the cold-start branch, built from the content
    recommender alone, and the Q-values are left as they were; a user with
    at least five ratings, in particular with exactly five, gets the
    result of candidate generation, temporal boost, score fusion, diversity
    re-ranking and feedback adjustment, in that order, cut to [top_n]. *)
Theorem hybrid_recommendation_cold_start_boundary
    (h : Hybrid.HybridRecommender) (year : Z) (db : option (gmap (Z * Z) Qc))
    (user top_n : Z) :
  let cr := Hybrid.content_recommender h in
  let cold :=
    (match Hybrid.catalog h with
     | [] => None
     | first_movie :: _ =>
         Some (map (fun rec =>
                      (Content.movie_id (Content.details rec),
                       Content.title (Content.details rec),
                       default 0 (Content.similarity_score rec)))
                   (Content.get_similar_movies
                      cr (Content.movie_id first_movie) top_n))
     end, db) in
  let full :=
    match Hybrid.diversity_rerank h
            (Hybrid.combine_with_content h
               (Hybrid.apply_temporal_boost h year
                  (Hybrid.get_cf_recommendations h user top_n))) with
    | None => (None, db)
    | Some diversity_recs =>
        (Some (Py.slice_to top_n
                 (fst (Hybrid.apply_rl_feedback h db user diversity_recs))),
         snd (Hybrid.apply_rl_feedback h db user diversity_recs))
    end in
  ((Hybrid.user_ratings_count h user < 5)%Z ->
   Hybrid.hybrid_recommendation h year db user top_n = cold)
  /\ ((5 <= Hybrid.user_ratings_count h user)%Z ->
      Hybrid.hybrid_recommendation h year db user top_n = full)
  /\ (Hybrid.user_ratings_count h user = 4%Z ->
      Hybrid.hybrid_recommendation h year db user top_n = cold)
  /\ (Hybrid.user_ratings_count h user = 5%Z ->
      Hybrid.hybrid_recommendation h year db user top_n = full).
Proof.
  intros cr cold full.
  assert ((Hybrid.user_ratings_count h user < 5)%Z ->
          Hybrid.hybrid_recommendation h year db user top_n = cold) as Hcold.
  { intros Hlt. unfold Hybrid.hybrid_recommendation.
    apply Z.ltb_lt in Hlt. rewrite Hlt. unfold cold.
    by destruct (Hybrid.catalog h). }
  assert ((5 <= Hybrid.user_ratings_count h user)%Z ->
          Hybrid.hybrid_recommendation h year db user top_n = full) as Hfull.
  { intros Hge. unfold Hybrid.hybrid_recommendation.
    apply Z.ltb_ge in Hge. rewrite Hge. apply full_pipeline_unfold. }
  split; [done |]. split; [done |].
  split; intros E; [apply Hcold | apply Hfull]; lia.
Qed.

Lemma hybrid_recommendation_cold_start_boundary_witness :
  Hybrid.hybrid_recommendation
    (Examples.recommender Examples.with_index 4 (Some Examples.predict_all))
    2026 (Some ∅) 1 2
  = (Some (map (fun rec =>
                  (Content.movie_id (Content.details rec),
                   Content.title (Content.details rec),
                   default 0 (Content.similarity_score rec)))
               (Content.get_similar_movies Examples.with_index 1 2)),
     Some ∅)
  /\ snd (Hybrid.hybrid_recommendation
            (Examples.recommender Examples.with_index 5
               (Some Examples.predict_all))
            2026 (Some ∅) 1 2)
     <> Some ∅.
Proof.
  split.
  - apply (hybrid_recommendation_cold_start_boundary
             (Examples.recommender Examples.with_index 4
                (Some Examples.predict_all)) 2026 (Some ∅) 1 2).
    reflexivity.
  - destruct (hybrid_recommendation_cold_start_boundary
                (Examples.recommender Examples.with_index 5
                   (Some Examples.predict_all)) 2026 (Some ∅) 1 2)
      as (_ & _ & _ & Hfive).
    rewrite Hfive by reflexivity.
    apply (bool_decide_unpack _). by vm_compute.
Defined.

(** ** The fairness re-rankers *)

Section FairnessFacts.
Import Fairness.
Implicit Types (d : dict) (k : Z) (v : Qc).

Lemma dict_get_set k' k v d :
  dict_get k' (dict_set k v d)
  = if decide (k' = k) then Some v else dict_get k' d.
Proof.
  induction d as [| [k0 v0] d IH]; simpl.
  - destruct (Z.eqb_spec k' k); by case_decide.
  - destruct (Z.eqb_spec k k0) as [-> | Hne]; simpl.
    + destruct (Z.eqb_spec k' k0); by case_decide.
    + destruct (Z.eqb_spec k' k0) as [-> | Hne'].
      * by rewrite decide_False by done.
      * apply IH.
Qed.

Lemma dict_keys_set k' k v d :
  k' ∈ (dict_set k v d).*1 <-> k' = k \/ k' ∈ d.*1.
Proof.
  induction d as [| [k0 v0] d IH]; simpl.
  - rewrite list_elem_of_singleton. split; [by left | intros [? | H]].
    + done.
    + by inversion H.
  - destruct (Z.eqb_spec k k0) as [-> | Hne]; simpl.
    + rewrite !elem_of_cons. tauto.
    + rewrite !elem_of_cons, IH. tauto.
Qed.

Lemma dict_keys_set_NoDup k v d :
  NoDup d.*1 -> NoDup (dict_set k v d).*1.
Proof.
  induction d as [| [k0 v0] d IH]; simpl; intros Hnd.
  - apply NoDup_singleton.
  - apply NoDup_cons in Hnd as [Hk0 Hnd].
    destruct (Z.eqb_spec k k0) as [-> | Hne]; simpl.
    + by apply NoDup_cons.
    + apply NoDup_cons. split; [| by apply IH].
      rewrite dict_keys_set. intros [? | ?]; [congruence | done].
Qed.

Lemma dict_get_key k d : k ∈ d.*1 -> is_Some (dict_get k d).
Proof.
  induction d as [| [k0 v0] d IH]; simpl; intros Hin; [by inversion Hin |].
  destruct (Z.eqb_spec k k0); [done |].
  apply elem_of_cons in Hin as [? | ?]; [done | by apply IH].
Qed.

Lemma adjust_loop_spec (score : Z -> Qc) (recs : list Z) d :
  NoDup d.*1 -> scored_by score d ->
  NoDup (adjust_loop score recs d).*1
  /\ scored_by score (adjust_loop score recs d)
  /\ (forall k, k ∈ (adjust_loop score recs d).*1 <-> k ∈ d.*1 \/ k ∈ recs).
Proof.
  revert d. induction recs as [| movie rest IH]; intros d Hnd Hsc; simpl.
  - split; [done |]. split; [done |]. intros k. split; [by left |].
    intros [? | H]; [done | by inversion H].
  - destruct (IH (dict_set movie (score movie) d)) as (Hnd' & Hsc' & Hin').
    + by apply dict_keys_set_NoDup.
    + intros k v. rewrite dict_get_set. case_decide as E.
      * intros [= <-]. by rewrite E.
      * apply Hsc.
    + split; [done |]. split; [done |]. intros k.
      rewrite Hin', dict_keys_set, elem_of_cons. tauto.
Qed.

Lemma StronglySorted_ext_in {A} (R R' : relation A) (l : list A) :
  (forall x y, x ∈ l -> y ∈ l -> R x y -> R' x y) ->
  StronglySorted R l -> StronglySorted R' l.
Proof.
  induction l as [| a l IH]; intros Himp Hs; [constructor |].
  apply StronglySorted_inv in Hs as [Hl Ha].
  constructor.
  - apply IH; [| done]. intros x y Hx Hy. apply Himp; by right.
  - rewrite Forall_forall in Ha |- *. intros y Hy.
    apply Himp; [by left | by right | by apply Ha].
Qed.

(** The list that both re-rankers return on non-empty popularity data. *)
Lemma sorted_keys_spec (score : Z -> Qc) (recs : list Z) :
  let out := sorted_keys (adjust_loop score recs []) in
  NoDup out
  /\ (forall movie, movie ∈ out <-> movie ∈ recs)
  /\ StronglySorted (desc score) out.
Proof.
  intros out.
  destruct (adjust_loop_spec score recs []) as (Hnd & Hsc & Hin);
    [constructor | done |].
  assert (out ≡ₚ (adjust_loop score recs []).*1) as Hp
    by apply sort_desc_perm.
  split; [by rewrite Hp |]. split.
  - intros movie. rewrite Hp, Hin. split; [| by right].
    intros [H | ?]; [by inversion H | done].
  - eapply StronglySorted_ext_in; [| apply sort_desc_sorted].
    fold (sorted_keys (adjust_loop score recs [])). fold out.
    intros x y Hx Hy. unfold desc. rewrite Hp in Hx, Hy.
    destruct (dict_get_key _ _ Hx) as [vx Ex].
    destruct (dict_get_key _ _ Hy) as [vy Ey].
    rewrite Ex, Ey. simpl.
    by rewrite (Hsc _ _ Ex), (Hsc _ _ Ey).
Qed.

Lemma groupby_size_fold (rows : list Row) (counts : gmap Z Z) :
  rows <> [] \/ counts <> ∅ ->
  fold_left
    (fun counts r =>
       <[movieId r := (default 0 (counts !! movieId r) + 1)%Z]> counts)
    rows counts <> ∅.
Proof.
  revert counts. induction rows as [| r rows IH]; intros counts H; simpl.
  - by destruct H.
  - apply IH. right. apply insert_non_empty.
Qed.

Lemma groupby_size_non_empty (rows : list Row) :
  rows <> [] -> groupby_size rows <> ∅.
Proof. intros H. apply groupby_size_fold. by left. Qed.

End FairnessFacts.

(** C10: on non-empty popularity data, both re-rankers return a list
    without repetitions whose movies are exactly the movies of the input
    list, descending by adjusted score; on empty popularity data (and, for
    [re_rank_recommendations], when the ratings were never loaded) they
    return the input list as it is. *)
Theorem re_rank_distinct_sorted
    (rows : list Fairness.Row) (recs : list Z) (scores : gmap Z Qc)
    (alpha beta lambda_factor : Qc) :
  let popularity := Fairness.groupby_size rows in
  let max_popularity := Fairness.series_max popularity in
  let fair := Fairness.re_rank_fair rows recs scores alpha beta in
  let checked :=
    Fairness.re_rank_recommendations (Some rows) recs scores lambda_factor in
  (rows <> [] ->
   NoDup fair
   /\ (forall movie, movie ∈ fair <-> movie ∈ recs)
   /\ StronglySorted
        (desc (Fairness.adjusted_score popularity max_popularity
                 scores alpha beta))
        fair)
  /\ (rows <> [] ->
      NoDup checked
      /\ (forall movie, movie ∈ checked <-> movie ∈ recs)
      /\ StronglySorted
           (desc (Fairness.adjusted_score_lambda popularity max_popularity
                    scores lambda_factor))
           checked)
  /\ Fairness.re_rank_fair [] recs scores alpha beta = recs
  /\ Fairness.re_rank_recommendations (Some []) recs scores lambda_factor
     = recs
  /\ Fairness.re_rank_recommendations None recs scores lambda_factor = recs.
Proof.
  intros popularity max_popularity fair checked.
  split; [| split; [| by repeat split]].
  - intros Hne. unfold fair, Fairness.re_rank_fair.
    destruct rows as [| r rows]; [done |].
    rewrite decide_False by (by apply groupby_size_non_empty).
    apply sorted_keys_spec.
  - intros Hne. unfold checked, Fairness.re_rank_recommendations.
    rewrite decide_False by (by apply groupby_size_non_empty).
    apply sorted_keys_spec.
Qed.

Lemma re_rank_distinct_sorted_witness :
  NoDup (Fairness.re_rank_fair Examples.three_rows [2; 1; 2; 3]%Z
           Examples.equal_scores 1 (dec 0.5))
  /\ Fairness.re_rank_fair Examples.three_rows [2; 1; 2; 3]%Z
       Examples.equal_scores 1 (dec 0.5)
     = [1; 2; 3]%Z.
Proof.
  split; [| reflexivity].
  apply (re_rank_distinct_sorted Examples.three_rows [2; 1; 2; 3]%Z
           Examples.equal_scores 1 (dec 0.5) (dec 0.5)).
  discriminate.
Defined.

(** * Further properties of the modelled code *)

(** ** The update rule and the store of Q-values *)

(** Comparisons and equations on scores, moved to the rationals under
    them. *)
Ltac qc_to_q :=
  unfold Qcle, Qclt in *; rewrite ?Qc_eq_Qeq in *; simpl in *;
  rewrite ?Qred_correct in *.

(** X1: [update_q_value] writes the value it returns under its own key and
    nothing else: reading the key back gives the returned value, every
    other key reads as before, and the rates of the agent are kept. *)
Theorem update_q_value_frame
    (a : RL.RLAgent) (user movie : Z) (reward next_max : Qc) :
  let updated := RL.update_q_value a user movie reward next_max in
  RL.q_values (snd updated) !! (user, movie) = Some (fst updated)
  /\ RL.get_q_value (snd updated) user movie = fst updated
  /\ (forall u' m',
        (u', m') <> (user, movie) ->
        RL.q_values (snd updated) !! (u', m') = RL.q_values a !! (u', m')
        /\ RL.get_q_value (snd updated) u' m' = RL.get_q_value a u' m')
  /\ RL.learning_rate (snd updated) = RL.learning_rate a
  /\ RL.discount_factor (snd updated) = RL.discount_factor a.
Proof.
  intros updated. unfold updated.
  split; [apply lookup_insert_eq |].
  split; [rewrite update_q_value_get; by rewrite decide_True |].
  split; [| done].
  intros u' m' Hne. split.
  - simpl. by rewrite lookup_insert_ne.
  - rewrite update_q_value_get. by rewrite decide_False.
Qed.

Lemma update_q_value_frame_witness :
  RL.get_q_value
    (snd (RL.update_q_value Examples.controlled_agent 1 10 1 0)) 2 10
  = RL.get_q_value Examples.controlled_agent 2 10.
Proof.
  apply (update_q_value_frame Examples.controlled_agent 1 10 1 0).
  discriminate.
Defined.

(** X2: with a learning rate between 0 and 1, the updated value lies
    between the old value and the target [reward + discount * next_max];
    in particular it does not decrease when the target is at least the old
    value, and it is the old value when the target equals it. *)
Theorem update_q_value_between
    (a : RL.RLAgent) (user movie : Z) (reward next_max : Qc) :
  0 ≤ RL.learning_rate a -> RL.learning_rate a ≤ 1 ->
  let q_before := RL.get_q_value a user movie in
  let target := reward + RL.discount_factor a * next_max in
  let q_after := fst (RL.update_q_value a user movie reward next_max) in
  (q_before ≤ target -> q_before ≤ q_after /\ q_after ≤ target)
  /\ (target ≤ q_before -> target ≤ q_after /\ q_after ≤ q_before)
  /\ (target = q_before -> q_after = q_before).
Proof.
  intros Hlo Hhi q_before target q_after.
  unfold q_after. rewrite update_q_value_fst. unfold RL.td_target.
  fold q_before. unfold target.
  generalize dependent q_before. intros q. clear q_after target.
  set (lr := RL.learning_rate a) in *. set (df := RL.discount_factor a).
  clearbody lr df.
  split; [| split].
  - intros H. split; qc_to_q; nra.
  - intros H. split; qc_to_q; nra.
  - intros H. qc_to_q. nra.
Qed.

Lemma update_q_value_between_witness :
  RL.get_q_value Examples.controlled_agent 1 10
  ≤ fst (RL.update_q_value Examples.controlled_agent 1 10 1 1).
Proof.
  destruct (update_q_value_between Examples.controlled_agent 1 10 1 1)
    as (Hup & _).
  - by apply (bool_decide_unpack _).
  - by apply (bool_decide_unpack _).
  - apply Hup. by apply (bool_decide_unpack _).
Defined.

Section BatchFacts.
Import RL.
Context (user : Z) (feedback : gmap Z Qc) (next_max : Qc).
Implicit Types (a : RLAgent) (recs : list (Z * Qc)).

(** A key outside the batch is not written by the loop. *)
Lemma adjust_loop_other a recs u' m' :
  u' <> user \/ m' ∉ recs.*1 ->
  q_values (snd (adjust_loop a user feedback next_max recs)) !! (u', m')
  = q_values a !! (u', m').
Proof.
  revert a. induction recs as [| [m s] recs IH]; intros a Hout; [done |].
  rewrite adjust_loop_cons. cbv zeta. simpl snd. rewrite IH.
  - simpl. apply lookup_insert_ne. intros [= <- <-].
    destruct Hout as [? | Hm]; [done |]. apply Hm. rewrite fmap_cons. by left.
  - destruct Hout as [? | Hm]; [by left | right].
    intros Hin. apply Hm. rewrite fmap_cons. by right.
Qed.

(** A key that is present stays present. *)
Lemma adjust_loop_keeps a recs k :
  is_Some (q_values a !! k) ->
  is_Some (q_values (snd (adjust_loop a user feedback next_max recs)) !! k).
Proof.
  revert a. induction recs as [| [m s] recs IH]; intros a Hk; [done |].
  rewrite adjust_loop_cons. cbv zeta. simpl snd. apply IH. simpl.
  rewrite lookup_insert. by case_decide.
Qed.

Lemma adjust_loop_writes a recs m :
  m ∈ recs.*1 ->
  is_Some (q_values (snd (adjust_loop a user feedback next_max recs))
             !! (user, m)).
Proof.
  revert a. induction recs as [| [m0 s] recs IH]; intros a Hin.
  - by inversion Hin.
  - rewrite adjust_loop_cons. cbv zeta. simpl snd.
    rewrite fmap_cons in Hin. apply elem_of_cons in Hin as [-> | Hin].
    + apply adjust_loop_keeps. simpl. rewrite lookup_insert_eq. done.
    + by apply IH.
Qed.

(** The loop on a batch whose values are all zero, with zero rewards. *)
Lemma adjust_loop_zero a recs :
  next_max = 0 ->
  (forall m, m ∈ recs.*1 -> get_q_value a user m = 0) ->
  (forall m, m ∈ recs.*1 -> default 0 (feedback !! m) = 0) ->
  fst (adjust_loop a user feedback next_max recs)
  = map (fun r => (fst r, dec 0.7 * snd r)) recs
  /\ (forall k v,
        q_values (snd (adjust_loop a user feedback next_max recs)) !! k
        = Some v ->
        v = 0 \/ q_values a !! k = Some v).
Proof.
  intros ->. revert a.
  induction recs as [| [m s] recs IH]; intros a Hq Hr.
  - split; [done |]. intros k v Hk. by right.
  - rewrite adjust_loop_cons. cbv zeta.
    set (a1 := snd (update_q_value a user m (default 0 (feedback !! m)) 0)).
    assert (td_target a (get_q_value a user m) (default 0 (feedback !! m)) 0
            = 0) as Hz.
    { rewrite Hq, Hr by (rewrite fmap_cons; by left).
      unfold td_target. ring. }
    destruct (IH a1) as [Hfst Hsnd].
    + intros m' Hin. unfold a1. rewrite update_q_value_get.
      case_decide; [done |]. apply Hq. rewrite fmap_cons. by right.
    + intros m' Hin. apply Hr. rewrite fmap_cons. by right.
    + cbn [fst snd]. split.
      * rewrite Hfst, Hz. cbn [map fst snd]. f_equal. f_equal. ring.
      * intros k v Hk. destruct (Hsnd k v Hk) as [? | Hk']; [by left |].
        unfold a1 in Hk'. simpl in Hk'. rewrite lookup_insert in Hk'.
        case_decide; [| by right].
        left. injection Hk' as <-. exact Hz.
Qed.

Lemma batch_next_max_zero a recs :
  (forall m, m ∈ recs.*1 -> get_q_value a user m = 0) ->
  batch_next_max a user recs = 0.
Proof.
  intros Hq. unfold batch_next_max.
  destruct recs as [| r recs]; [done |].
  destruct (max_default_spec 0
              (map (fun r => get_q_value a user (fst r)) (r :: recs)))
    as [Hin _]; [done |].
  apply list_elem_of_fmap in Hin as (r' & -> & Hr').
  apply Hq. apply list_elem_of_fmap. by exists r'.
Qed.

End BatchFacts.

(** X3: [adjust_recommendations] returns one pair per candidate, for the
    same movies, and writes only the keys [(user, movie)] of its batch:
    every candidate has a stored value afterwards, and the values of other
    users and of movies outside the batch are as before. *)
Theorem adjust_recommendations_frame
    (a : RL.RLAgent) (user : Z) (recs : list (Z * Qc)) (feedback : gmap Z Qc) :
  let result := RL.adjust_recommendations a user recs feedback in
  (fst result).*1 ≡ₚ recs.*1
  /\ length (fst result) = length recs
  /\ (forall movie,
        movie ∈ recs.*1 ->
        is_Some (RL.q_values (snd result) !! (user, movie)))
  /\ (forall u' m',
        u' <> user \/ m' ∉ recs.*1 ->
        RL.q_values (snd result) !! (u', m') = RL.q_values a !! (u', m'))
  /\ RL.learning_rate (snd result) = RL.learning_rate a
  /\ RL.discount_factor (snd result) = RL.discount_factor a.
Proof.
  intros result. unfold result. rewrite adjust_recommendations_unfold.
  simpl fst. simpl snd.
  split; [by rewrite sort_desc_perm, adjust_loop_ids |].
  split.
  { rewrite sort_desc_length, <- (length_fmap fst), adjust_loop_ids.
    apply length_fmap. }
  split; [intros movie Hin; by apply adjust_loop_writes |].
  split; [intros u' m' Hout; by apply adjust_loop_other |].
  apply adjust_loop_rates.
Qed.

Lemma adjust_recommendations_frame_witness :
  RL.q_values
    (snd (RL.adjust_recommendations Examples.controlled_agent 2
            Examples.demo_recommendations Examples.demo_feedback))
    !! (1%Z, 10%Z)
  = RL.q_values Examples.controlled_agent !! (1%Z, 10%Z).
Proof.
  apply (adjust_recommendations_frame Examples.controlled_agent 2
           Examples.demo_recommendations Examples.demo_feedback).
  left. discriminate.
Defined.

(** X4: a batch in which every candidate has the value zero (or no
    value) and a zero reward is returned with each score scaled by 0.7, in
    descending order, and no non-zero value enters the store: every value
    stored afterwards is zero or was stored before. *)
Theorem adjust_recommendations_zero
    (a : RL.RLAgent) (user : Z) (recs : list (Z * Qc)) (feedback : gmap Z Qc) :
  (forall m, m ∈ recs.*1 -> RL.get_q_value a user m = 0) ->
  (forall m, m ∈ recs.*1 -> default 0 (feedback !! m) = 0) ->
  let result := RL.adjust_recommendations a user recs feedback in
  fst result
  = Py.sort_desc snd (map (fun r => (fst r, dec 0.7 * snd r)) recs)
  /\ (forall m, m ∈ recs.*1 -> RL.get_q_value (snd result) user m = 0)
  /\ (forall k v,
        RL.q_values (snd result) !! k = Some v ->
        v = 0 \/ RL.q_values a !! k = Some v).
Proof.
  intros Hq Hr result. unfold result. rewrite adjust_recommendations_unfold.
  simpl fst. simpl snd. rewrite (batch_next_max_zero user a recs Hq).
  destruct (adjust_loop_zero user feedback 0 a recs eq_refl Hq Hr)
    as [Hfst Hsnd].
  split; [by rewrite Hfst |]. split; [| done].
  intros m Hin.
  destruct (adjust_loop_writes user feedback 0 a recs m Hin) as [v Hv].
  unfold RL.get_q_value. rewrite Hv. simpl.
  destruct (Hsnd _ _ Hv) as [? | Hold]; [done |].
  specialize (Hq m Hin). unfold RL.get_q_value in Hq.
  by rewrite Hold in Hq.
Qed.

Lemma adjust_recommendations_zero_witness :
  fst (RL.adjust_recommendations Examples.demo_agent 1
         Examples.demo_recommendations ∅)
  = Py.sort_desc snd
      (map (fun r => (fst r, dec 0.7 * snd r)) Examples.demo_recommendations).
Proof.
  apply (adjust_recommendations_zero Examples.demo_agent 1
           Examples.demo_recommendations ∅).
  - intros m _. reflexivity.
  - intros m _. reflexivity.
Defined.

(** ** Lookups in the content recommender *)

Section LookupFacts.
Import Content.

Lemma filter_head {A} (P : A -> Prop) `{forall x, Decision (P x)}
    (l : list A) x rest :
  filter P l = x :: rest ->
  exists before after,
    l = before ++ x :: after /\ Forall (fun y => ~ P y) before /\ P x.
Proof.
  induction l as [| y l IH]; [done |].
  rewrite filter_cons. case_decide as Hy.
  - intros [= -> <-]. exists [], l. by repeat split.
  - intros E. destruct (IH E) as (before & after & -> & Hb & Hx).
    exists (y :: before), after. repeat split; [| done].
    by constructor.
Qed.

Lemma movie_indices_spec (ms : list Movie) id (start : nat) i :
  i ∈ movie_indices start ms id
  <-> exists m, ms !! (i - start)%nat = Some m /\ movie_id m = id
                /\ (start <= i)%nat.
Proof.
  revert start. induction ms as [| m ms IH]; intros start; simpl.
  - split; [intros H; by inversion H | by intros (? & ? & _)].
  - assert (i ∈ movie_indices (S start) ms id
            <-> exists m', (m :: ms) !! (i - start)%nat = Some m'
                           /\ movie_id m' = id /\ (S start <= i)%nat) as Htail.
    { rewrite IH. split; intros (m' & Hm' & Hid & Hle); exists m'.
      - replace (i - start)%nat with (S (i - S start)) by lia. done.
      - replace (i - start)%nat with (S (i - S start)) in Hm' by lia. done. }
    destruct (Z.eqb_spec (movie_id m) id) as [Hid | Hid].
    + rewrite elem_of_cons, Htail. split.
      * intros [-> | (m' & ? & ? & ?)].
        -- exists m. rewrite Nat.sub_diag. done.
        -- exists m'. repeat split; [done | done | lia].
      * intros (m' & Hm' & Hid' & Hle).
        destruct (decide (i = start)) as [-> | Hne]; [by left |].
        right. exists m'. repeat split; [done | done | lia].
    + rewrite Htail. split.
      * intros (m' & ? & ? & ?). exists m'. repeat split; [done | done | lia].
      * intros (m' & Hm' & Hid' & Hle). exists m'.
        repeat split; [done | done |].
        destruct (decide (i = start)) as [-> | Hne]; [| lia].
        rewrite Nat.sub_diag in Hm'. simpl in Hm'. congruence.
Qed.

Lemma movie_indices_unknown (ms : list Movie) id :
  id ∉ map movie_id ms -> movie_indices 0 ms id = [].
Proof.
  intros Hid. destruct (movie_indices 0 ms id) as [| i rest] eqn:E; [done |].
  assert (i ∈ movie_indices 0 ms id) as Hin by (rewrite E; left).
  apply movie_indices_spec in Hin as (m & Hm & <- & _).
  exfalso. apply Hid. apply list_elem_of_fmap. exists m. split; [done |].
  by eapply list_elem_of_lookup_2.
Qed.

Lemma similar_loop_rows ms (sim_scores : list (nat * Qc)) out :
  similar_loop ms sim_scores = Some out ->
  Forall2 (fun p d => ms !! fst p = Some (details d)
                      /\ similarity_score d = Some (snd p))
          sim_scores out.
Proof.
  revert out. induction sim_scores as [| [idx s] rest IH]; intros out; simpl.
  - intros [= <-]. constructor.
  - destruct (ms !! idx) as [movie |] eqn:E; simpl; [| done].
    destruct (similar_loop ms rest) as [tail |]; simpl; [| done].
    intros [= <-]. constructor; [done | by apply IH].
Qed.

End LookupFacts.

(** X5: [get_movie_by_id] finds nothing exactly when no row of the table
    has the identifier; otherwise it returns the first row that has it,
    and no similarity score. *)
Theorem get_movie_by_id_lookup (cr : Content.ContentBasedRecommender) (id : Z) :
  (Content.get_movie_by_id cr id = None
   <-> id ∉ map Content.movie_id (Content.movies cr))
  /\ (forall d,
        Content.get_movie_by_id cr id = Some d ->
        Content.movie_id (Content.details d) = id
        /\ Content.similarity_score d = None
        /\ exists before after,
             Content.movies cr = before ++ Content.details d :: after
             /\ id ∉ map Content.movie_id before).
Proof.
  unfold Content.get_movie_by_id, Content.get_movie_details.
  destruct (filter _ (Content.movies cr)) as [| movie rest] eqn:E.
  - split; [| done]. split; [| done]. intros _ Hin.
    apply list_elem_of_fmap in Hin as (m & Hid & Hm).
    assert (m ∈ filter (fun m => Content.movie_id m = id) (Content.movies cr))
      as Hf by (apply list_elem_of_filter; done).
    rewrite E in Hf. by inversion Hf.
  - apply filter_head in E as (before & after & Hms & Hb & Hid).
    split.
    + split; [done |]. intros Hnot. exfalso. apply Hnot.
      rewrite Hms, fmap_app, fmap_cons, elem_of_app, elem_of_cons. auto.
    + intros d [= <-]. simpl. split; [done |]. split; [done |].
      exists before, after. split; [done |].
      intros Hin. apply list_elem_of_fmap in Hin as (m & Hm & Hin).
      rewrite Forall_forall in Hb. by apply (Hb m).
Qed.

Lemma get_movie_by_id_lookup_witness :
  Content.get_movie_by_id Examples.no_index 3
  = Some {| Content.details := Examples.movie3;
            Content.similarity_score := None |}
  /\ Content.movie_id Examples.movie3 = 3%Z.
Proof.
  split; [reflexivity |].
  destruct (get_movie_by_id_lookup Examples.no_index 3) as [_ Hsome].
  apply (Hsome {| Content.details := Examples.movie3;
                  Content.similarity_score := None |}).
  reflexivity.
Defined.

(** X6: [get_similar_movies] returns the empty list when the similarity
    matrix is missing or the movie is unknown; every entry it returns is a
    row of the movies table with a similarity score, the entries are
    descending by that score, and for [top_n >= 0] there are at most
    [top_n] of them. *)
Theorem get_similar_movies_result
    (cr : Content.ContentBasedRecommender) (id top_n : Z) :
  let out := Content.get_similar_movies cr id top_n in
  (Content.cosine_sim cr = None -> out = [])
  /\ (id ∉ map Content.movie_id (Content.movies cr) -> out = [])
  /\ Forall (fun d => Content.details d ∈ Content.movies cr
                      /\ is_Some (Content.similarity_score d)) out
  /\ StronglySorted
       (desc (fun d => default 0 (Content.similarity_score d))) out
  /\ ((0 <= top_n)%Z -> (Z.of_nat (length out) <= top_n)%Z).
Proof.
  intros out. unfold out.
  split; [by unfold Content.get_similar_movies; intros -> |].
  split.
  { intros Hid. unfold Content.get_similar_movies.
    destruct (Content.cosine_sim cr); [| done].
    by rewrite movie_indices_unknown. }
  split; [| split; [apply get_similar_movies_sorted
                   | apply get_similar_movies_length]].
  unfold Content.get_similar_movies.
  destruct (Content.cosine_sim cr) as [sim |]; [| done].
  destruct (Content.movie_indices 0 (Content.movies cr) id)
    as [| movie_idx ?]; [done |].
  destruct (sim !! movie_idx) as [row |]; [| done].
  destruct (Content.similar_loop (Content.movies cr) _) as [found |] eqn:E;
    [| done].
  simpl. apply similar_loop_rows in E.
  induction E as [| p d ps ds [Hrow Hs] _ IH]; constructor; [| done].
  split; [by eapply list_elem_of_lookup_2 | by rewrite Hs].
Qed.

Lemma get_similar_movies_result_witness :
  Content.get_similar_movies Examples.with_index 9 2 = []
  /\ (Z.of_nat (length (Content.get_similar_movies Examples.with_index 1 2))
      <= 2)%Z.
Proof.
  split.
  - apply (get_similar_movies_result Examples.with_index 9 2).
    intros H. apply list_elem_of_In in H. simpl in H.
    repeat destruct H as [H | H]; try discriminate H. exact H.
  - apply (get_similar_movies_result Examples.with_index 1 2). lia.
Defined.

Section SelfExclusion.
Import Content.

Lemma enumerate_spec {A} (row : list A) (start j : nat) (x : A) :
  (j, x) ∈ enumerate start row
  <-> (start <= j)%nat /\ row !! (j - start)%nat = Some x.
Proof.
  revert start. induction row as [| y row IH]; intros start; simpl.
  - split; [intros H; by inversion H | by intros [_ ?]].
  - rewrite elem_of_cons, IH. split.
    + intros [[= -> ->] | [Hle Hx]].
      * rewrite Nat.sub_diag. split; [lia | done].
      * split; [lia |].
        replace (j - start)%nat with (S (j - S start)) by lia. done.
    + intros [Hle Hx]. destruct (decide (j = start)) as [-> | Hne].
      * rewrite Nat.sub_diag in Hx. injection Hx as ->. by left.
      * right. split; [lia |].
        replace (j - start)%nat with (S (j - S start)) in Hx by lia. done.
Qed.

Lemma enumerate_NoDup {A} (row : list A) (start : nat) :
  NoDup (enumerate start row).*1.
Proof.
  revert start. induction row as [| y row IH]; intros start; simpl.
  - constructor.
  - apply NoDup_cons. split; [| apply IH].
    intros Hin. apply list_elem_of_fmap in Hin as ([j x] & Hj & Hin).
    simpl in Hj. subst j. apply enumerate_spec in Hin as [Hle _]. lia.
Qed.

Lemma slice_1_tail {A} (hi : Z) (x : A) (l : list A) :
  Py.slice 1 hi (x :: l) `sublist_of` l.
Proof.
  unfold Py.slice, Py.clamp_index. simpl length.
  replace (Z.to_nat (if (1 <? 0)%Z then _ else _)) with 1%nat.
  - apply sublist_take.
  - destruct (1 <? 0)%Z eqn:E; lia.
Qed.

End SelfExclusion.

(** X7: when the identifiers of the table are distinct and a movie's own
    entry is strictly the largest of its row of the similarity matrix,
    [get_similar_movies] does not return the movie itself. *)
Theorem get_similar_movies_excludes_itself
    (cr : Content.ContentBasedRecommender) (id top_n : Z)
    (sim : list (list Qc)) (i : nat) (row : list Qc) (s : Qc)
    (m : Content.Movie) :
  Content.cosine_sim cr = Some sim ->
  NoDup (map Content.movie_id (Content.movies cr)) ->
  Content.movies cr !! i = Some m ->
  Content.movie_id m = id ->
  sim !! i = Some row ->
  row !! i = Some s ->
  (forall j s', j <> i -> row !! j = Some s' -> s' < s) ->
  id ∉ map (fun d => Content.movie_id (Content.details d))
           (Content.get_similar_movies cr id top_n).
Proof.
  intros Hsim Hnd Hm Hid Hrow Hs Hmax.
  assert (forall j m', Content.movies cr !! j = Some m' ->
                       Content.movie_id m' = id -> j = i) as Huniq.
  { intros j m' Hj Hid'. eapply (NoDup_lookup _ j i id Hnd).
    - rewrite list_lookup_fmap, Hj. simpl. by rewrite Hid'.
    - rewrite list_lookup_fmap, Hm. simpl. by rewrite Hid. }
  unfold Content.get_similar_movies. rewrite Hsim.
  destruct (Content.movie_indices 0 (Content.movies cr) id)
    as [| movie_idx rest] eqn:Eidx; [by intros H; inversion H |].
  assert (movie_idx = i) as ->.
  { assert (movie_idx ∈ Content.movie_indices 0 (Content.movies cr) id)
      as Hin by (rewrite Eidx; left).
    apply movie_indices_spec in Hin as (m' & Hm' & Hid' & _).
    rewrite Nat.sub_0_r in Hm'. by apply (Huniq _ m'). }
  rewrite Hrow.
  set (sorted := Py.sort_desc snd (Content.enumerate 0 row)).
  assert (sorted ≡ₚ Content.enumerate 0 row) as Hp by apply sort_desc_perm.
  assert ((i, s) ∈ sorted) as Hself.
  { rewrite Hp. apply enumerate_spec. rewrite Nat.sub_0_r. split; [lia | done]. }
  assert (StronglySorted (desc snd) sorted) as Hsorted
    by apply sort_desc_sorted.
  assert (NoDup sorted.*1) as Hnds by (rewrite Hp; apply enumerate_NoDup).
  destruct sorted as [| [j0 s0] tail] eqn:Esorted; [by inversion Hself |].
  assert (j0 = i) as ->.
  { destruct (decide (j0 = i)) as [? | Hne]; [done | exfalso].
    assert ((j0, s0) ∈ Content.enumerate 0 row) as Hh
      by (rewrite <- Hp; left).
    apply enumerate_spec in Hh as [_ Hh]. rewrite Nat.sub_0_r in Hh.
    pose proof (Hmax j0 s0 Hne Hh) as Hlt.
    apply elem_of_cons in Hself as [[= ? ?] | Hself]; [congruence |].
    apply StronglySorted_inv in Hsorted as [_ Hall].
    rewrite Forall_forall in Hall. specialize (Hall _ Hself).
    unfold desc in Hall. simpl in Hall.
    by apply Qcle_not_lt in Hall. }
  destruct (Content.similar_loop (Content.movies cr)
              (Py.slice 1 (top_n + 1) ((i, s0) :: tail)))
    as [found |] eqn:E; simpl; [| by intros H; inversion H].
  apply similar_loop_rows in E.
  intros Hin. apply list_elem_of_fmap in Hin as (d & Hd & Hin).
  apply list_elem_of_lookup in Hin as [n Hn].
  destruct (Forall2_lookup_r _ _ _ _ _ E Hn) as ([j sj] & Hj & Hmovie & _).
  simpl in Hmovie.
  assert (j = i) as -> by (by apply (Huniq j (Content.details d))).
  assert ((i, sj) ∈ tail) as Htail.
  { eapply elem_of_sublist; [| apply (slice_1_tail (top_n + 1))].
    by eapply list_elem_of_lookup_2. }
  rewrite fmap_cons in Hnds. apply NoDup_cons in Hnds as [Hnot _].
  apply Hnot. apply list_elem_of_fmap. by exists (i, sj).
Qed.

Lemma get_similar_movies_excludes_itself_witness :
  1%Z ∉ map (fun d => Content.movie_id (Content.details d))
            (Content.get_similar_movies Examples.with_index 1 10).
Proof.
  apply (get_similar_movies_excludes_itself Examples.with_index 1 10
           [[dec 1.0; dec 0.5; dec 0.25; dec 0.0];
            [dec 0.5; dec 1.0; dec 0.0; dec 0.75];
            [dec 0.25; dec 0.0; dec 1.0; dec 0.5];
            [dec 0.0; dec 0.75; dec 0.5; dec 1.0]]
           0%nat [dec 1.0; dec 0.5; dec 0.25; dec 0.0] (dec 1.0)
           Examples.movie1); try reflexivity.
  - apply (bool_decide_unpack _). by vm_compute.
  - intros j s' Hj Hs'.
    destruct j as [| [| [| [| j]]]]; [done | | | | done];
      injection Hs' as <-; by apply (bool_decide_unpack _).
Defined.

(** ** Temporal boost and diversity penalty *)

Section StageFacts.
Import Content Hybrid.

Lemma ratio_bounds (p m : Qc) : 0 ≤ p -> p ≤ m -> 0 < m -> 0 ≤ p / m /\ p / m ≤ 1.
Proof.
  intros Hp Hpm Hm.
  assert (m <> 0) as Hne by (intros ->; by apply (irreflexivity Qclt 0)).
  split.
  - apply Qcmult_nonneg_nonneg; [done |].
    apply Qclt_le_weak. by apply Qcinv_pos.
  - apply (Qcmult_le_mono_pos_r _ _ m Hm).
    replace (p / m * m) with p by (by field). by rewrite Qcmult_1_l.
Qed.

(** The factor by which one more occurrence of a genre that was counted
    [count] times scales the penalty. *)
Lemma penalty_factor_bounds (count : Z) :
  (0 <= count)%Z ->
  0 < 1 / (1 + Qc_of_Z count) /\ 1 / (1 + Qc_of_Z count) ≤ 1.
Proof.
  intros Hc.
  assert (1 ≤ 1 + Qc_of_Z count) as Hge.
  { rewrite <- Z2Qc_inj_1, <- Z2Qc_inj_add.
    apply (proj1 (Z2Qc_inj_le 1 (1 + count))). lia. }
  assert (0 < 1 + Qc_of_Z count) as Hpos
    by (eapply Qclt_le_trans; [| apply Hge]; done).
  split.
  - unfold Qcdiv. rewrite Qcmult_1_l. by apply Qcinv_pos.
  - by apply ratio_bounds.
Qed.

Lemma genre_loop_bounds (gs : list string) (penalty : Qc)
    (genre_count : gmap string Z) :
  0 < penalty ->
  map_Forall (fun _ c => (0 <= c)%Z) genre_count ->
  0 < fst (genre_loop gs penalty genre_count)
  /\ fst (genre_loop gs penalty genre_count) ≤ penalty
  /\ map_Forall (fun _ c => (0 <= c)%Z)
                (snd (genre_loop gs penalty genre_count)).
Proof.
  revert penalty genre_count.
  induction gs as [| g gs IH]; intros penalty gc Hp Hgc; simpl; [done |].
  assert (0 <= default 0 (gc !! g))%Z as Hc.
  { destruct (gc !! g) as [c |] eqn:E; simpl; [by apply (Hgc g) | lia]. }
  destruct (penalty_factor_bounds _ Hc) as [Hf0 Hf1].
  destruct (IH (penalty * (1 / (1 + Qc_of_Z (default 0%Z (gc !! g)))))
               (<[g := (default 0 (gc !! g) + 1)%Z]> gc))
    as (H0 & H1 & H2).
  - by apply Qcmult_pos_pos.
  - apply map_Forall_insert_2; [lia | done].
  - split; [done |]. split; [| done].
    etrans; [apply H1 |].
    rewrite <- (Qcmult_1_r penalty) at 2.
    apply Qcmult_le_mono_nonneg_l; [by apply Qclt_le_weak | done].
Qed.

(** What the outer loop appends for each known candidate. *)
Lemma diversity_loop_entries cr (recs : list (Z * Qc)) genre_count processed :
  map_Forall (fun _ c => (0 <= c)%Z) genre_count ->
  diversity_loop cr recs genre_count = Some processed ->
  Forall (fun entry =>
            exists score penalty d,
              (rec_id entry, score) ∈ recs
              /\ rec_score entry = score * penalty
              /\ 0 < penalty /\ penalty ≤ 1
              /\ get_movie_by_id cr (rec_id entry) = Some d
              /\ snd (fst entry) = title (details d))
         processed.
Proof.
  revert genre_count processed.
  induction recs as [| [id score] recs IH]; intros gc processed Hgc.
  - intros [= <-]. constructor.
  - cbn [diversity_loop].
    destruct (get_movie_by_id cr id) as [movie |] eqn:E.
    + destruct (genres (details movie)) as [g |]; simpl; [| done].
      destruct (genre_loop_bounds (genre_list g) 1 gc) as (H0 & H1 & H2);
        [done | done |].
      destruct (genre_loop (genre_list g) 1 gc) as [penalty gc'].
      destruct (diversity_loop cr recs gc') as [tail |] eqn:Et; simpl;
        [| done].
      intros [= <-]. constructor.
      * exists score, penalty, movie. simpl.
        repeat split; [by left | done | done | done].
      * eapply Forall_impl; [by apply (IH gc') |].
        intros entry (s & p & d & Hin & ?). exists s, p, d.
        split; [by right | done].
    + intros Hl. eapply Forall_impl; [by apply (IH gc) |].
      intros entry (s & p & d & Hin & ?). exists s, p, d.
      split; [by right | done].
Qed.

Lemma diversity_loop_length cr (recs : list (Z * Qc)) genre_count processed :
  diversity_loop cr recs genre_count = Some processed ->
  (length processed <= length recs)%nat.
Proof.
  intros H. apply diversity_loop_ids in H.
  apply (f_equal length) in H. rewrite length_map in H. rewrite H.
  etrans; [apply length_filter |]. by rewrite length_fmap.
Qed.

Lemma temporal_boost_cases cr current_year id :
  temporal_boost cr current_year id = dec 1.0
  \/ (temporal_boost cr current_year id = dec 1.1
      /\ exists d date release_year,
           get_movie_by_id cr id = Some d
           /\ release_date (details d) = Some date
           /\ date <> ""%string
           /\ Py.int (Py.last4 date) = Some release_year
           /\ (current_year - release_year <= 5)%Z).
Proof.
  unfold temporal_boost.
  destruct (get_movie_by_id cr id) as [d |] eqn:Ed; [| by left].
  destruct (release_date (details d)) as [date |] eqn:Edate; [| by left].
  destruct (Py.truthy date) eqn:Et; [| by left].
  destruct (Py.int (Py.last4 date)) as [y |] eqn:Ey; [| by left].
  destruct (current_year - y <=? 5)%Z eqn:E; [| by left].
  right. split; [done |]. exists d, date, y.
  split; [done |]. split; [done |]. split; [by intros -> |].
  split; [done | by apply Z.leb_le].
Qed.

End StageFacts.

(** X8: [apply_temporal_boost] keeps the candidates and their order, and
    returns each score either as it is or multiplied by 1.1; it is
    multiplied only for a movie of the table whose release date is a
    non-empty string ending in a year at most five years before the
    current one. *)
Theorem apply_temporal_boost_spec
    (h : Hybrid.HybridRecommender) (current_year : Z) (recs : list (Z * Qc)) :
  let cr := Hybrid.content_recommender h in
  let out := Hybrid.apply_temporal_boost h current_year recs in
  out.*1 = recs.*1
  /\ Forall2
       (fun r o =>
          fst o = fst r
          /\ (snd o = snd r
              \/ (snd o = snd r * dec 1.1
                  /\ exists d date release_year,
                       Content.get_movie_by_id cr (fst r) = Some d
                       /\ Content.release_date (Content.details d) = Some date
                       /\ date <> ""%string
                       /\ Py.int (Py.last4 date) = Some release_year
                       /\ (current_year - release_year <= 5)%Z)))
       recs out.
Proof.
  intros cr out. unfold out, Hybrid.apply_temporal_boost. fold cr.
  split.
  - induction recs as [| [id s] recs IH]; [done |].
    rewrite !fmap_cons. cbn [map fst]. f_equal. apply IH.
  - induction recs as [| [id s] recs IH]; [constructor |].
    cbn [map]. constructor; [| apply IH]. simpl. split; [done |].
    destruct (temporal_boost_cases cr current_year id) as [-> | [-> Hex]].
    + left. apply Qc_eq_Qeq. unfold dec. simpl. rewrite !Qred_correct. ring.
    + by right.
Qed.

(** X9: every entry that [diversity_rerank] returns belongs to a
    candidate whose movie is in the table, carries that movie's title, and
    has the candidate's score multiplied by a penalty in (0, 1]; there are
    no more entries than candidates, and a non-negative score is never
    raised. *)
Theorem diversity_rerank_penalty
    (h : Hybrid.HybridRecommender) (recs : list (Z * Qc))
    (out : list Hybrid.Rec) :
  Hybrid.diversity_rerank h recs = Some out ->
  (length out <= length recs)%nat
  /\ Forall (fun entry =>
               exists score penalty d,
                 (Hybrid.rec_id entry, score) ∈ recs
                 /\ Hybrid.rec_score entry = score * penalty
                 /\ 0 < penalty /\ penalty ≤ 1
                 /\ (0 ≤ score -> Hybrid.rec_score entry ≤ score)
                 /\ Content.get_movie_by_id (Hybrid.content_recommender h)
                      (Hybrid.rec_id entry) = Some d
                 /\ snd (fst entry) = Content.title (Content.details d))
            out.
Proof.
  unfold Hybrid.diversity_rerank.
  destruct (Hybrid.diversity_loop _ recs ∅) as [processed |] eqn:E;
    simpl; [| done].
  intros [= <-]. split.
  - rewrite sort_desc_length. by eapply diversity_loop_length.
  - rewrite sort_desc_perm.
    eapply Forall_impl;
      [apply (diversity_loop_entries _ _ ∅ _ (map_Forall_empty _) E) |].
    intros entry (s & p & d & Hin & Hs & Hp0 & Hp1 & Hd & Ht).
    exists s, p, d. repeat split; try done.
    intros Hs0. rewrite Hs. rewrite <- (Qcmult_1_r s) at 2.
    by apply Qcmult_le_mono_nonneg_l.
Qed.

Lemma diversity_rerank_penalty_witness :
  (length [(1%Z, "Movie 1"%string, dec 10.0);
           (3%Z, "Movie 3"%string, dec 4.5)] <= 2)%nat.
Proof.
  apply (diversity_rerank_penalty
           (Examples.recommender Examples.no_index 5 None)
           [(1%Z, dec 10.0); (3%Z, dec 9.0)]
           [(1%Z, "Movie 1"%string, dec 10.0);
            (3%Z, "Movie 3"%string, dec 4.5)]).
  apply (bool_decide_unpack _). by vm_compute.
Defined.

(** X10: the inner loop of [diversity_rerank] counts every occurrence:
    afterwards each genre's count is its count before plus the number of
    times it occurs in the movie's genre list. When the genres of the list
    are distinct, the penalty is the product of [1 / (1 + count)] over the
    counts read before the movie was processed. *)
Theorem genre_loop_counts
    (gs : list string) (penalty : Qc) (genre_count : gmap string Z) :
  (forall g,
     default 0%Z (snd (Hybrid.genre_loop gs penalty genre_count) !! g)
     = (default 0 (genre_count !! g)
        + Z.of_nat (length (filter (fun g' => g' = g) gs)))%Z)
  /\ (NoDup gs ->
      fst (Hybrid.genre_loop gs penalty genre_count)
      = fold_left
          (fun acc g =>
             acc * (1 / (1 + Qc_of_Z (default 0%Z (genre_count !! g)))))
          gs penalty).
Proof.
  split.
  - revert penalty genre_count.
    induction gs as [| g0 gs IH]; intros penalty gc g; simpl; [lia |].
    rewrite IH, filter_cons, lookup_insert.
    destruct (decide (g0 = g)) as [-> | Hne]; simpl; lia.
  - revert penalty genre_count.
    induction gs as [| g0 gs IH]; intros penalty gc Hnd; simpl; [done |].
    apply NoDup_cons in Hnd as [Hg0 Hnd]. rewrite (IH _ _ Hnd).
    generalize (penalty * (1 / (1 + Qc_of_Z (default 0%Z (gc !! g0))))).
    clear IH Hnd. induction gs as [| g gs IH]; intros acc; simpl; [done |].
    rewrite lookup_insert_ne by (intros ->; apply Hg0; by left).
    apply IH. intros Hin. apply Hg0. by right.
Qed.

Lemma genre_loop_counts_witness :
  fst (Hybrid.genre_loop ["Action"; "Drama"]%string 1 {[ "Drama"%string := 1%Z ]})
  = fold_left
      (fun acc g =>
         acc * (1 / (1 + Qc_of_Z
                        (default 0%Z
                           (({[ "Drama"%string := 1%Z ]} : gmap string Z) !! g)))))
      ["Action"; "Drama"]%string 1.
Proof.
  apply (genre_loop_counts ["Action"; "Drama"]%string 1
           {[ "Drama"%string := 1%Z ]}).
  apply (bool_decide_unpack _). by vm_compute.
Defined.

(** ** The feedback stage inside the pipeline *)

Section FeedbackStageFacts.
Import Content Hybrid.

Lemma zero_feedback (l : list (Z * Qc)) (m : Z) :
  default 0
    ((list_to_map (map (fun r => (fst r, 0)) l) : gmap Z Qc) !! m) = 0.
Proof.
  induction l as [| r l IH]; [done |].
  cbn [map list_to_map foldr]. simpl. rewrite lookup_insert.
  by case_decide.
Qed.

Lemma scale_sorted (l : list (Z * Qc)) :
  StronglySorted (desc snd) l ->
  StronglySorted (desc snd) (map (fun r => (fst r, dec 0.7 * snd r)) l).
Proof.
  induction l as [| r l IH]; intros Hs; [constructor |].
  apply StronglySorted_inv in Hs as [Hl Hr]. cbn [map].
  constructor; [by apply IH |].
  rewrite Forall_fmap. eapply Forall_impl; [apply Hr |].
  intros x Hx. unfold desc in *. simpl.
  apply Qcmult_le_mono_nonneg_l; [by apply (bool_decide_unpack _) | done].
Qed.

Lemma rec_pairs_sorted (recs : list Rec) :
  StronglySorted (desc rec_score) recs ->
  StronglySorted (desc snd) (map (fun r => (rec_id r, rec_score r)) recs).
Proof.
  intros Hs. apply sorted_map_key. rewrite <- list_fmap_compose.
  by apply (proj1 (sorted_map_key rec_score _)).
Qed.

Lemma apply_rl_feedback_some h rows user (recs : list Rec) :
  apply_rl_feedback h (Some rows) user recs
  = let result :=
      RL.adjust_recommendations (fresh_agent rows) user
        (map (fun r => (rec_id r, rec_score r)) recs)
        (list_to_map
           (map (fun r => (fst r, 0))
                (map (fun r => (rec_id r, rec_score r)) recs))) in
    (map (retitle (content_recommender h)) (fst result),
     Some (RL.q_values (snd result))).
Proof.
  unfold apply_rl_feedback. cbv zeta.
  destruct (RL.adjust_recommendations _ _ _ _) as [updated a'].
  simpl. f_equal. apply list_fmap_ext. by intros ? [? ?].
Qed.

Lemma hybrid_recommendation_some h year db user top_n out db' :
  hybrid_recommendation h year db user top_n = (Some out, db') ->
  StronglySorted (desc rec_score) out
  /\ ((0 <= top_n)%Z -> (Z.of_nat (length out) <= top_n)%Z).
Proof.
  unfold hybrid_recommendation.
  destruct (user_ratings_count h user <? 5)%Z.
  - destruct (catalog h) as [| first_movie rest]; [done |].
    intros [= <- <-].
    split; [apply trending_sorted | apply trending_length].
  - rewrite full_pipeline_unfold.
    destruct (diversity_rerank h _) as [diversity_recs |] eqn:Ed; [| done].
    intros [= <- <-]. split.
    + apply slice_sorted, apply_rl_feedback_sorted.
      by apply diversity_rerank_sorted in Ed.
    + apply slice_to_length.
Qed.

End FeedbackStageFacts.



(** X12: the pipeline always passes zero feedback, so a table of
    Q-values that holds only zeros holds only zeros after
    [hybrid_recommendation], and no key is lost; the final score of every
    entry of the full pipeline is then 0.7 times its diversity-adjusted
    score, in the order of the diversity re-ranker. *)
Theorem hybrid_recommendation_keeps_zero
    (h : Hybrid.HybridRecommender) (year : Z) (rows : gmap (Z * Z) Qc)
    (user top_n : Z) :
  map_Forall (fun _ v => v = 0) rows ->
  (exists rows',
     snd (Hybrid.hybrid_recommendation h year (Some rows) user top_n)
     = Some rows'
     /\ map_Forall (fun _ v => v = 0) rows'
     /\ (forall k, is_Some (rows !! k) -> is_Some (rows' !! k)))
  /\ (forall diversity_recs,
        (5 <= Hybrid.user_ratings_count h user)%Z ->
        Hybrid.diversity_rerank h
          (Hybrid.combine_with_content h
             (Hybrid.apply_temporal_boost h year
                (Hybrid.get_cf_recommendations h user top_n)))
        = Some diversity_recs ->
        fst (Hybrid.hybrid_recommendation h year (Some rows) user top_n)
        = Some (Py.slice_to top_n
                  (map (fun r => (Hybrid.rec_id r, snd (fst r),
                                  dec 0.7 * Hybrid.rec_score r))
                       diversity_recs))).
Proof.
  intros Hzero.
  assert (forall recs : list Hybrid.Rec,
            let pairs :=
              map (fun r => (Hybrid.rec_id r, Hybrid.rec_score r)) recs in
            let result := Hybrid.apply_rl_feedback h (Some rows) user recs in
            fst result
            = map (Hybrid.retitle (Hybrid.content_recommender h))
                  (Py.sort_desc snd
                     (map (fun r => (fst r, dec 0.7 * snd r)) pairs))
            /\ exists rows',
                 snd result = Some rows'
                 /\ map_Forall (fun _ v => v = 0) rows'
                 /\ (forall k, is_Some (rows !! k) -> is_Some (rows' !! k)))
    as Hstage.
  { intros recs pairs result. unfold result.
    rewrite apply_rl_feedback_some. cbv zeta. fold pairs.
    rewrite adjust_recommendations_unfold. cbn [fst snd].
    assert (forall m, m ∈ pairs.*1 ->
                      RL.get_q_value (Hybrid.fresh_agent rows) user m = 0)
      as Hq.
    { intros m _. unfold RL.get_q_value. simpl.
      destruct (rows !! (user, m)) as [v |] eqn:E; [| done].
      by apply (Hzero _ _ E). }
    rewrite (batch_next_max_zero user _ pairs Hq).
    destruct (adjust_loop_zero user
                (list_to_map (map (fun r => (fst r, 0)) pairs)) 0
                (Hybrid.fresh_agent rows) pairs eq_refl Hq)
      as [Hfst Hsnd]; [intros m _; apply zero_feedback |].
    rewrite Hfst. split; [done |]. eexists. split; [done |]. split.
    - intros k v Hk. destruct (Hsnd k v Hk) as [? | Hold]; [done |].
      by apply (Hzero _ _ Hold).
    - intros k Hk. by apply adjust_loop_keeps. }
  split.
  - unfold Hybrid.hybrid_recommendation.
    destruct (Hybrid.user_ratings_count h user <? 5)%Z.
    + exists rows. by destruct (Hybrid.catalog h).
    + rewrite full_pipeline_unfold.
      destruct (Hybrid.diversity_rerank h _) as [diversity_recs |];
        [| by exists rows].
      cbn [snd]. apply Hstage.
  - intros diversity_recs Hge Hdiv.
    unfold Hybrid.hybrid_recommendation.
    apply Z.ltb_ge in Hge. rewrite Hge, full_pipeline_unfold, Hdiv.
    cbn [fst]. f_equal. f_equal.
    destruct (Hstage diversity_recs) as [-> _].
    rewrite sort_desc_id
      by (apply scale_sorted, rec_pairs_sorted;
          by apply diversity_rerank_sorted in Hdiv).
    rewrite <- !list_fmap_compose.
    unfold Hybrid.diversity_rerank in Hdiv.
    destruct (Hybrid.diversity_loop _ _ ∅) as [processed |] eqn:E;
      simpl in Hdiv; [| done].
    injection Hdiv as <-.
    pose proof (diversity_loop_entries _ _ ∅ _ (map_Forall_empty _) E)
      as Hentries.
    rewrite <- (sort_desc_perm Hybrid.rec_score) in Hentries.
    rewrite Forall_forall in Hentries.
    apply list_fmap_ext. intros i [[id t] s] Hi.
    destruct (Hentries _ (list_elem_of_lookup_2 _ _ _ Hi))
      as (_ & _ & d & _ & _ & _ & _ & Hd & Ht).
    unfold Hybrid.retitle, Hybrid.rec_id, Hybrid.rec_score in *.
    simpl in *. by rewrite Hd, Ht.
Qed.

Lemma hybrid_recommendation_keeps_zero_witness :
  exists rows',
    snd (Hybrid.hybrid_recommendation
           (Examples.recommender Examples.no_index 5
              (Some Examples.predict_all)) 2026 (Some ∅) 1 2)
    = Some rows'
    /\ map_Forall (fun _ v => v = 0) rows'.
Proof.
  destruct (hybrid_recommendation_keeps_zero
              (Examples.recommender Examples.no_index 5
                 (Some Examples.predict_all)) 2026 ∅ 1 2)
    as [(rows' & Hrows & Hz & _) _].
  - apply map_Forall_empty.
  - exists rows'. split; [exact Hrows | exact Hz].
Defined.

(** X13: [get_recommendations] always returns a list: the empty list
    when the recommender cannot be built or the pipeline raises, the list
    of the pipeline otherwise; the list is descending by score and, for
    [top_n >= 0], has at most [top_n] entries. *)
Theorem get_recommendations_total
    (recommender : option Hybrid.HybridRecommender) (year : Z)
    (db : option (gmap (Z * Z) Qc)) (user top_n : Z) :
  let out :=
    fst (Hybrid.get_recommendations recommender year db user top_n) in
  StronglySorted (desc Hybrid.rec_score) out
  /\ ((0 <= top_n)%Z -> (Z.of_nat (length out) <= top_n)%Z)
  /\ (recommender = None -> out = [])
  /\ (forall h,
        recommender = Some h ->
        out = default []
                (fst (Hybrid.hybrid_recommendation h year db user top_n))).
Proof.
  intros out. unfold out, Hybrid.get_recommendations.
  destruct recommender as [h |].
  - destruct (Hybrid.hybrid_recommendation h year db user top_n)
      as [[recs |] db'] eqn:E; cbn [fst].
    + destruct (hybrid_recommendation_some _ _ _ _ _ _ _ E) as [Hs Hl].
      split; [done |]. split; [done |]. split; [done |].
      intros h' [= <-]. by rewrite E.
    + split; [constructor |]. split; [simpl; lia |]. split; [done |].
      intros h' [= <-]. by rewrite E.
  - split; [constructor |]. split; [simpl; lia |]. by split.
Qed.

Lemma get_recommendations_total_witness :
  (Z.of_nat
     (length
        (fst (Hybrid.get_recommendations
                (Some (Examples.recommender Examples.no_index 5
                         (Some Examples.predict_all)))
                2026 (Some ∅) 1 2)))
   <= 2)%Z.
Proof.
  apply (get_recommendations_total
           (Some (Examples.recommender Examples.no_index 5
                    (Some Examples.predict_all))) 2026 (Some ∅) 1 2).
  lia.
Defined.

(** ** Popularity and the fairness re-rankers *)

Section PopularityFacts.
Import Fairness.

Lemma rating_count_nonneg (rows : list Row) (m : Z) :
  (0 <= rating_count rows m)%Z.
Proof. unfold rating_count. lia. Qed.

Lemma rating_count_cons (r : Row) (rows : list Row) (m : Z) :
  rating_count (r :: rows) m
  = ((if decide (movieId r = m) then 1 else 0) + rating_count rows m)%Z.
Proof.
  unfold rating_count. rewrite filter_cons.
  case_decide; simpl length; lia.
Qed.

Lemma groupby_fold_lookup (rows : list Row) (counts : gmap Z Z) (m : Z) :
  fold_left
    (fun counts r =>
       <[movieId r := (default 0 (counts !! movieId r) + 1)%Z]> counts)
    rows counts !! m
  = if decide (rating_count rows m = 0%Z) then counts !! m
    else Some (default 0 (counts !! m) + rating_count rows m)%Z.
Proof.
  revert counts. induction rows as [| r rows IH]; intros counts.
  - done.
  - cbn [fold_left]. rewrite IH, rating_count_cons.
    pose proof (rating_count_nonneg rows m).
    destruct (decide (movieId r = m)) as [-> | Hne].
    + rewrite lookup_insert_eq. cbn [default].
      repeat case_decide; try lia;
        apply (f_equal Some); unfold id;
        generalize (default 0%Z (counts !! m)); intros ?; lia.
    + rewrite lookup_insert_ne by done.
      repeat case_decide; try lia; done.
Qed.

Lemma groupby_size_lookup (rows : list Row) (m : Z) :
  groupby_size rows !! m
  = if decide (rating_count rows m = 0%Z) then None
    else Some (rating_count rows m).
Proof.
  unfold groupby_size. rewrite groupby_fold_lookup, lookup_empty.
  case_decide; [done |]. apply (f_equal Some). cbn [default from_option]. lia.
Qed.

Lemma groupby_size_default (rows : list Row) (m : Z) :
  default 0%Z (groupby_size rows !! m) = rating_count rows m.
Proof. rewrite groupby_size_lookup. by case_decide. Qed.

Lemma groupby_size_positive (rows : list Row) (m v : Z) :
  groupby_size rows !! m = Some v -> (0 < v)%Z.
Proof.
  rewrite groupby_size_lookup. pose proof (rating_count_nonneg rows m).
  case_decide; [done |]. intros [= <-]. lia.
Qed.

Lemma series_max_spec (s : gmap Z Z) :
  (0 <= series_max s)%Z
  /\ (forall k v, s !! k = Some v -> (v <= series_max s)%Z)
  /\ (series_max s = 0%Z \/ exists k, s !! k = Some (series_max s)).
Proof.
  unfold series_max.
  apply (map_fold_weak_ind
           (fun r (m : gmap Z Z) =>
              (0 <= r)%Z
              /\ (forall k v, m !! k = Some v -> (v <= r)%Z)
              /\ (r = 0%Z \/ exists k, m !! k = Some r))).
  - split; [done |]. split; [| by left]. intros k v. by rewrite lookup_empty.
  - intros i x m r Hi (Hr & Hle & Hex). split; [lia |]. split.
    + intros k v. rewrite lookup_insert. case_decide.
      * intros [= <-]. lia.
      * intros Hk. specialize (Hle _ _ Hk). lia.
    + destruct (Z.max_spec x r) as [[_ ->] | [_ ->]].
      * destruct Hex as [? | [k Hk]]; [by left |]. right. exists k.
        rewrite lookup_insert_ne; [done |]. intros ->. congruence.
      * right. exists i. by rewrite lookup_insert_eq.
Qed.

Lemma max_popularity_spec (rows : list Row) :
  rows <> [] ->
  let max_popularity := series_max (groupby_size rows) in
  (0 < max_popularity)%Z
  /\ (forall m, (rating_count rows m <= max_popularity)%Z)
  /\ (exists m, rating_count rows m = max_popularity).
Proof.
  intros Hne max_popularity.
  destruct (series_max_spec (groupby_size rows)) as (H0 & Hle & Hex).
  fold max_popularity in H0, Hle, Hex.
  assert (forall m, (rating_count rows m <= max_popularity)%Z) as Hall.
  { intros m. pose proof (groupby_size_lookup rows m) as Hm.
    case_decide as E; [lia |]. by apply (Hle m). }
  assert (0 < max_popularity)%Z as Hpos.
  { destruct rows as [| r rows]; [done |].
    specialize (Hall (movieId r)). rewrite rating_count_cons in Hall.
    rewrite decide_True in Hall by done.
    pose proof (rating_count_nonneg rows (movieId r)). lia. }
  split; [done |]. split; [done |].
  destruct Hex as [? | [k Hk]]; [lia |]. exists k.
  rewrite groupby_size_lookup in Hk. case_decide; [done |]. congruence.
Qed.

End PopularityFacts.

(** X14: in [re_rank_fair] on non-empty ratings, the popularity of a
    movie is the number of rows that rate it and the largest popularity
    is positive and attained by some movie, so the normalised popularity
    lies between 0 and 1: for [beta >= 0] the adjusted score lies between
    [alpha * score - beta] and [alpha * score]; a movie without ratings
    keeps [alpha * score], a most rated movie gets
    [alpha * score - beta]. *)
Theorem re_rank_fair_normalised_popularity
    (rows : list Fairness.Row) (scores : gmap Z Qc) (alpha beta : Qc)
    (movie : Z) :
  rows <> [] ->
  let popularity := Fairness.groupby_size rows in
  let max_popularity := Fairness.series_max popularity in
  let count := Fairness.rating_count rows movie in
  let original := default 0 (scores !! movie) in
  let adjusted :=
    Fairness.adjusted_score popularity max_popularity scores alpha beta
      movie in
  (0 <= count <= max_popularity)%Z
  /\ (0 < max_popularity)%Z
  /\ (exists top, Fairness.rating_count rows top = max_popularity)
  /\ adjusted
     = alpha * original
       - beta * (Qc_of_Z count / Qc_of_Z max_popularity)
  /\ (0 ≤ beta ->
      alpha * original - beta ≤ adjusted /\ adjusted ≤ alpha * original)
  /\ (count = 0%Z -> adjusted = alpha * original)
  /\ (count = max_popularity -> adjusted = alpha * original - beta).
Proof.
  intros Hne popularity max_popularity count original adjusted.
  destruct (max_popularity_spec rows Hne) as (Hpos & Hle & Htop).
  fold popularity in Hpos, Hle, Htop. fold max_popularity in Hpos, Hle, Htop.
  pose proof (rating_count_nonneg rows movie) as Hcount.
  fold count in Hcount.
  assert (adjusted
          = alpha * original
            - beta * (Qc_of_Z count / Qc_of_Z max_popularity)) as Hadj.
  { unfold adjusted, Fairness.adjusted_score, popularity.
    by rewrite groupby_size_default. }
  assert (0 < Qc_of_Z max_popularity) as Hm.
  { rewrite <- Z2Qc_inj_0. by apply (proj1 (Z2Qc_inj_lt 0 max_popularity)). }
  assert (Qc_of_Z max_popularity <> 0) as Hm0
    by (intros E; rewrite E in Hm; by apply (irreflexivity Qclt 0)).
  destruct (ratio_bounds (Qc_of_Z count) (Qc_of_Z max_popularity))
    as [Hn0 Hn1]; [| | done |].
  { rewrite <- Z2Qc_inj_0. by apply (proj1 (Z2Qc_inj_le 0 count)). }
  { apply (proj1 (Z2Qc_inj_le count max_popularity)). apply Hle. }
  split; [split; [done | apply Hle] |]. split; [done |].
  split; [done |]. split; [done |].
  rewrite Hadj. split; [| split].
  - intros Hbeta.
    set (n := Qc_of_Z count / Qc_of_Z max_popularity) in *.
    assert (beta * n ≤ beta) as Hup.
    { rewrite <- (Qcmult_1_r beta) at 2.
      by apply Qcmult_le_mono_nonneg_l. }
    assert (0 ≤ beta * n) as Hlow by (by apply Qcmult_nonneg_nonneg).
    unfold Qcminus. split.
    + apply Qcplus_le_mono_l. by apply Qcopp_le_compat.
    + rewrite <- (Qcplus_0_r (alpha * original)) at 2.
      apply Qcplus_le_mono_l. by apply (Qcopp_le_compat 0).
  - intros ->. rewrite Z2Qc_inj_0. unfold Qcdiv. ring.
  - intros ->. by field.
Qed.

Lemma re_rank_fair_normalised_popularity_witness :
  Fairness.adjusted_score (Fairness.groupby_size Examples.three_rows)
    (Fairness.series_max (Fairness.groupby_size Examples.three_rows))
    Examples.equal_scores 1 (dec 0.5) 2
  = 1 * default 0 (Examples.equal_scores !! 2%Z) - dec 0.5.
Proof.
  destruct (re_rank_fair_normalised_popularity Examples.three_rows
              Examples.equal_scores 1 (dec 0.5) 2)
    as (_ & _ & _ & _ & _ & _ & Htop); [discriminate |].
  apply Htop. reflexivity.
Defined.

Section RankOrderFacts.
Import Fairness.
Implicit Types (d : dict) (k : Z) (v : Qc).

Lemma filter_all {A} (P : A -> Prop) `{forall x, Decision (P x)}
    (l : list A) :
  (forall x, x ∈ l -> P x) -> filter P l = l.
Proof.
  induction l as [| y l IH]; intros Hl; [done |].
  rewrite filter_cons_True by (apply Hl; by left).
  f_equal. apply IH. intros x Hx. apply Hl. by right.
Qed.

Lemma dict_set_keys k v d :
  (dict_set k v d).*1 = if decide (k ∈ d.*1) then d.*1 else d.*1 ++ [k].
Proof.
  induction d as [| [k0 v0] d IH]; [done |].
  cbn [dict_set]. destruct (Z.eqb_spec k k0) as [-> | Hne].
  - rewrite !fmap_cons. cbn [fst]. rewrite decide_True; [done | by left].
  - rewrite !fmap_cons, IH. cbn [fst].
    destruct (decide (k ∈ d.*1)) as [Hin | Hin].
    + rewrite decide_True; [done | by right].
    + rewrite decide_False; [done |].
      rewrite elem_of_cons. by intros [? | ?].
Qed.

Lemma first_occurrences_elem (l : list Z) (x : Z) :
  x ∈ first_occurrences l <-> x ∈ l.
Proof.
  induction l as [| y l IH]; simpl; [done |].
  rewrite !elem_of_cons, list_elem_of_filter, IH.
  destruct (decide (x = y)); [tauto | tauto].
Qed.

Lemma first_occurrences_NoDup (l : list Z) : NoDup (first_occurrences l).
Proof.
  induction l as [| y l IH]; simpl; [constructor |].
  apply NoDup_cons. split; [| by apply NoDup_filter].
  rewrite list_elem_of_filter. by intros [? _].
Qed.

Lemma first_occurrences_id (l : list Z) :
  NoDup l -> first_occurrences l = l.
Proof.
  induction l as [| y l IH]; simpl; intros Hnd; [done |].
  apply NoDup_cons in Hnd as [Hy Hnd]. rewrite (IH Hnd). f_equal.
  apply filter_all. by intros x Hx ->.
Qed.

Lemma adjust_loop_keys (score : Z -> Qc) (recs : list Z) d :
  (adjust_loop score recs d).*1
  = d.*1 ++ filter (fun k => k ∉ d.*1) (first_occurrences recs).
Proof.
  revert d. induction recs as [| movie rest IH]; intros d; simpl.
  - by rewrite app_nil_r.
  - rewrite IH, dict_set_keys, filter_cons.
    destruct (decide (movie ∈ d.*1)) as [Hin | Hin].
    + rewrite decide_False by (by intros ?). f_equal.
      rewrite list_filter_filter. apply list_filter_iff.
      intros x. split; [| tauto]. intros Hx. split; [done |].
      intros ->. done.
    + rewrite decide_True by done. rewrite <- app_assoc. f_equal. simpl.
      f_equal. rewrite list_filter_filter. apply list_filter_iff.
      intros x. rewrite elem_of_app, list_elem_of_singleton. tauto.
Qed.

Lemma insert_desc_ext_in {A} (f g : A -> Qc) (x : A) (l : list A) :
  f x = g x -> (forall y, y ∈ l -> f y = g y) ->
  Py.insert_desc f x l = Py.insert_desc g x l.
Proof.
  intros Hx. induction l as [| y l IH]; intros Hl; simpl; [done |].
  rewrite Hx, (Hl y) by (by left).
  destruct (Qc_leb (g y) (g x)); [done |]. f_equal. apply IH.
  intros z Hz. apply Hl. by right.
Qed.

Lemma sort_desc_ext_in {A} (f g : A -> Qc) (l : list A) :
  (forall y, y ∈ l -> f y = g y) -> Py.sort_desc f l = Py.sort_desc g l.
Proof.
  induction l as [| x l IH]; intros Hl; simpl; [done |].
  rewrite <- IH by (intros y Hy; apply Hl; by right).
  apply insert_desc_ext_in; [apply Hl; by left |].
  intros y Hy. apply Hl. right. by rewrite sort_desc_perm in Hy.
Qed.

(** What both re-rankers return on non-empty popularity data. *)
Lemma sorted_keys_adjust_loop (score : Z -> Qc) (recs : list Z) :
  sorted_keys (adjust_loop score recs [])
  = Py.sort_desc score (first_occurrences recs).
Proof.
  unfold sorted_keys.
  destruct (adjust_loop_spec score recs []) as (_ & Hsc & _);
    [constructor | done |].
  assert ((adjust_loop score recs []).*1 = first_occurrences recs) as Hk.
  { rewrite adjust_loop_keys. simpl. apply filter_all.
    intros x _ Hx. by inversion Hx. }
  change (map fst (adjust_loop score recs []))
    with ((adjust_loop score recs []).*1).
  rewrite <- Hk. apply sort_desc_ext_in. intros k Hin.
  destruct (dict_get_key _ _ Hin) as [v Ev]. rewrite Ev. simpl.
  by apply Hsc.
Qed.

Lemma adjust_loop_ext (f g : Z -> Qc) (recs : list Z) d :
  (forall k, f k = g k) -> adjust_loop f recs d = adjust_loop g recs d.
Proof.
  intros Hfg. revert d. induction recs as [| movie rest IH]; intros d; simpl;
    [done |].
  by rewrite Hfg, IH.
Qed.

Lemma sort_first_occurrences_fixed (score : Z -> Qc) (recs : list Z) :
  let out := Py.sort_desc score (first_occurrences recs) in
  Py.sort_desc score (first_occurrences out) = out.
Proof.
  intros out.
  assert (NoDup out) as Hnd.
  { unfold out. rewrite sort_desc_perm. apply first_occurrences_NoDup. }
  rewrite (first_occurrences_id _ Hnd).
  apply sort_desc_id. apply sort_desc_sorted.
Qed.

End RankOrderFacts.

(** X15: on non-empty ratings [re_rank_fair] returns the distinct movies
    of the input, taken in the order of their first occurrence and sorted
    stably by descending adjusted score: movies with the same adjusted
    score keep the order of their first occurrence, and an input without
    repetitions that is already descending is returned as it is. *)
Theorem re_rank_fair_stable
    (rows : list Fairness.Row) (recs : list Z) (scores : gmap Z Qc)
    (alpha beta : Qc) :
  rows <> [] ->
  let score :=
    Fairness.adjusted_score (Fairness.groupby_size rows)
      (Fairness.series_max (Fairness.groupby_size rows)) scores alpha beta in
  let out := Fairness.re_rank_fair rows recs scores alpha beta in
  out = Py.sort_desc score (Fairness.first_occurrences recs)
  /\ (forall s : Qc,
        filter (fun movie => score movie = s) out
        = filter (fun movie => score movie = s)
            (Fairness.first_occurrences recs))
  /\ (NoDup recs -> StronglySorted (desc score) recs -> out = recs).
Proof.
  intros Hne score out.
  assert (out = Py.sort_desc score (Fairness.first_occurrences recs)) as Hout.
  { unfold out, Fairness.re_rank_fair. destruct rows as [| r rows]; [done |].
    rewrite decide_False by (by apply groupby_size_non_empty).
    apply sorted_keys_adjust_loop. }
  split; [done |]. split.
  - intros s. rewrite Hout. apply sort_desc_stable.
  - intros Hnd Hsorted.
    by rewrite Hout, (first_occurrences_id _ Hnd), sort_desc_id.
Qed.

Lemma re_rank_fair_stable_witness :
  Fairness.re_rank_fair Examples.three_rows [1; 2; 3]%Z Examples.equal_scores
    1 (dec 0.5)
  = [1; 2; 3]%Z.
Proof.
  destruct (re_rank_fair_stable Examples.three_rows [1; 2; 3]%Z
              Examples.equal_scores 1 (dec 0.5))
    as (_ & _ & Hfixed); [discriminate |].
  apply Hfixed.
  - apply (bool_decide_unpack _). by vm_compute.
  - apply (bool_decide_unpack _). by vm_compute.
Defined.

(** X16: [re_rank_fair] is idempotent: re-ranking its own result with
    the same ratings, scores and weights changes nothing. *)
Theorem re_rank_fair_idempotent
    (rows : list Fairness.Row) (recs : list Z) (scores : gmap Z Qc)
    (alpha beta : Qc) :
  Fairness.re_rank_fair rows
    (Fairness.re_rank_fair rows recs scores alpha beta) scores alpha beta
  = Fairness.re_rank_fair rows recs scores alpha beta.
Proof.
  unfold Fairness.re_rank_fair. destruct rows as [| r rows]; [done |].
  rewrite !decide_False by (by apply groupby_size_non_empty).
  rewrite !sorted_keys_adjust_loop. apply sort_first_occurrences_fixed.
Qed.

(** X17: on loaded ratings, [re_rank_recommendations] of
    fairness_checks.py returns what [re_rank_fair] of fairness_re_ranker.py
    returns for [alpha = 1] and [beta = lambda_factor]. *)
Theorem re_rank_recommendations_is_re_rank_fair
    (rows : list Fairness.Row) (recs : list Z) (scores : gmap Z Qc)
    (lambda_factor : Qc) :
  Fairness.re_rank_recommendations (Some rows) recs scores lambda_factor
  = Fairness.re_rank_fair rows recs scores 1 lambda_factor.
Proof.
  unfold Fairness.re_rank_recommendations, Fairness.re_rank_fair.
  destruct rows as [| r rows]; [done |].
  case_decide; [done |]. f_equal. apply adjust_loop_ext. intros k.
  unfold Fairness.adjusted_score_lambda, Fairness.adjusted_score.
  by rewrite Qcmult_1_l.
Qed.

(** X18: the two weights of [re_rank_fair] taken alone: with [beta = 0]
    and [alpha > 0] the result is descending by predicted score
    (a movie without one counts as 0); with [alpha = 0] and [beta > 0] it
    is ascending by number of ratings. *)
Theorem re_rank_fair_single_weight
    (rows : list Fairness.Row) (recs : list Z) (scores : gmap Z Qc)
    (alpha beta : Qc) :
  rows <> [] ->
  let out := Fairness.re_rank_fair rows recs scores alpha beta in
  (beta = 0 -> 0 < alpha ->
   StronglySorted (desc (fun movie => default 0 (scores !! movie))) out)
  /\ (alpha = 0 -> 0 < beta ->
      StronglySorted
        (fun a b =>
           (Fairness.rating_count rows a <= Fairness.rating_count rows b)%Z)
        out).
Proof.
  intros Hne out.
  set (score :=
         Fairness.adjusted_score (Fairness.groupby_size rows)
           (Fairness.series_max (Fairness.groupby_size rows))
           scores alpha beta).
  assert (StronglySorted (desc score) out) as Hsorted.
  { unfold out, Fairness.re_rank_fair. destruct rows as [| r rows]; [done |].
    rewrite decide_False by (by apply groupby_size_non_empty).
    rewrite sorted_keys_adjust_loop. apply sort_desc_sorted. }
  destruct (max_popularity_spec rows Hne) as (Hpos & _ & _).
  assert (0 < Qc_of_Z (Fairness.series_max (Fairness.groupby_size rows)))
    as Hm.
  { rewrite <- Z2Qc_inj_0. by apply (proj1 (Z2Qc_inj_lt 0 _)). }
  assert (forall m,
            score m
            = alpha * default 0 (scores !! m)
              - beta * (Qc_of_Z (Fairness.rating_count rows m)
                        / Qc_of_Z (Fairness.series_max
                                     (Fairness.groupby_size rows))))
    as Hscore.
  { intros m. unfold score, Fairness.adjusted_score.
    by rewrite groupby_size_default. }
  split.
  - intros -> Halpha. eapply StronglySorted_ext_in; [| apply Hsorted].
    intros x y _ _. unfold desc. rewrite !Hscore.
    assert (forall a n : Qc, alpha * a - 0 * n = alpha * a) as E
      by (intros; ring).
    rewrite !E. by apply Qcmult_le_mono_pos_l.
  - intros -> Hbeta. eapply StronglySorted_ext_in; [| apply Hsorted].
    intros x y _ _. unfold desc. rewrite !Hscore.
    assert (forall a n : Qc, 0 * a - beta * n = - (beta * n)) as E
      by (intros; ring).
    rewrite !E.
    intros Hle. apply Qcopp_le_compat in Hle. rewrite !Qcopp_involutive in Hle.
    apply (Qcmult_le_mono_pos_l _ _ beta Hbeta) in Hle.
    unfold Qcdiv in Hle.
    apply (Qcmult_le_mono_pos_r _ _ _ (Qcinv_pos _ Hm)) in Hle.
    by apply Z2Qc_inj_le.
Qed.

Lemma re_rank_fair_single_weight_witness :
  StronglySorted
    (fun a b =>
       (Fairness.rating_count Examples.three_rows a
        <= Fairness.rating_count Examples.three_rows b)%Z)
    (Fairness.re_rank_fair Examples.three_rows [2; 1; 3]%Z
       Examples.equal_scores 0 1).
Proof.
  destruct (re_rank_fair_single_weight Examples.three_rows [2; 1; 3]%Z
              Examples.equal_scores 0 1)
    as [_ Hrare]; [discriminate |].
  apply Hrare; [reflexivity | reflexivity].
Defined.

Section BiasFacts.
Import Fairness.

Lemma total_perm (l l' : list Z) : l ≡ₚ l' -> total l = total l'.
Proof.
  unfold total. induction 1; simpl; lia.
Qed.

Lemma mean_perm (l l' : list Z) : l ≡ₚ l' -> mean l = mean l'.
Proof.
  intros Hp. unfold mean. fold (total l). fold (total l').
  by rewrite (total_perm _ _ Hp), (Permutation_length Hp).
Qed.

Lemma total_ge_length (values : list Z) :
  Forall (fun v => (1 <= v)%Z) values ->
  (Z.of_nat (length values) <= total values)%Z.
Proof.
  unfold total. induction 1; simpl; lia.
Qed.

Lemma mean_ge_1 (values : list Z) :
  values <> [] -> Forall (fun v => (1 <= v)%Z) values -> 1 ≤ mean values.
Proof.
  intros Hne Hall. unfold mean. fold (total values).
  pose proof (total_ge_length _ Hall) as Hsum.
  assert (0 < Qc_of_Z (Z.of_nat (length values))) as Hn.
  { rewrite <- Z2Qc_inj_0. apply (proj1 (Z2Qc_inj_lt 0 _)).
    destruct values; [done | simpl; lia]. }
  apply (Qcmult_le_mono_pos_r _ _ _ Hn).
  assert (Qc_of_Z (Z.of_nat (length values)) <> 0) as Hn0
    by (intros E; rewrite E in Hn; by apply (irreflexivity Qclt 0)).
  replace (Qc_of_Z (total values) / Qc_of_Z (Z.of_nat (length values))
           * Qc_of_Z (Z.of_nat (length values)))
    with (Qc_of_Z (total values)) by (by field).
  rewrite Qcmult_1_l. by apply (proj1 (Z2Qc_inj_le _ _)).
Qed.

Lemma total_values_insert (counts : gmap Z Z) (k : Z) :
  total (map snd (map_to_list
                    (<[k := (default 0 (counts !! k) + 1)%Z]> counts)))
  = (total (map snd (map_to_list counts)) + 1)%Z.
Proof.
  destruct (counts !! k) as [v0 |] eqn:E; cbn [default from_option].
  - rewrite <- insert_delete_eq.
    rewrite (total_perm _ (map snd ((k, (v0 + 1)%Z)
                                     :: map_to_list (delete k counts)))).
    2: { apply fmap_Permutation, map_to_list_insert, lookup_delete_eq. }
    rewrite (total_perm (map snd (map_to_list counts))
               (map snd ((k, v0) :: map_to_list (delete k counts)))).
    2: { apply fmap_Permutation. symmetry. by apply map_to_list_delete. }
    unfold total. simpl. unfold id. lia.
  - rewrite (total_perm _ (map snd ((k, (0 + 1)%Z) :: map_to_list counts))).
    2: { by apply fmap_Permutation, map_to_list_insert. }
    unfold total. simpl. lia.
Qed.

Lemma total_groupby_fold (rows : list Row) (counts : gmap Z Z) :
  total (map snd (map_to_list
     (fold_left
        (fun counts r =>
           <[movieId r := (default 0 (counts !! movieId r) + 1)%Z]> counts)
        rows counts)))
  = (total (map snd (map_to_list counts)) + Z.of_nat (length rows))%Z.
Proof.
  revert counts. induction rows as [| r rows IH]; intros counts.
  - simpl. lia.
  - cbn [fold_left]. rewrite IH, total_values_insert. simpl length. lia.
Qed.

Lemma total_groupby_size (rows : list Row) :
  total (map snd (map_to_list (groupby_size rows)))
  = Z.of_nat (length rows).
Proof.
  unfold groupby_size. rewrite total_groupby_fold, map_to_list_empty.
  unfold total. simpl. lia.
Qed.

(** The overall mean: rows per rated movie. *)
Lemma overall_popularity_spec (rows : list Row) :
  mean (map snd (map_to_list (groupby_size rows)))
  = Qc_of_Z (Z.of_nat (length rows))
    / Qc_of_Z (Z.of_nat (size (groupby_size rows))).
Proof.
  unfold mean. fold (total (map snd (map_to_list (groupby_size rows)))).
  by rewrite total_groupby_size, length_map, length_map_to_list.
Qed.

Lemma rec_popularity_spec (rows : list Row) (recs : list Z) :
  omap (fun movie => groupby_size rows !! movie) recs
  = filter (fun c => c <> 0%Z) (map (rating_count rows) recs).
Proof.
  induction recs as [| movie rest IH]; [done |].
  cbn [omap list_omap map]. rewrite filter_cons.
  change (list_omap ?f ?l) with (omap f l). rewrite IH.
  rewrite groupby_size_lookup.
  destruct (decide (rating_count rows movie = 0%Z)) as [E | E].
  - by rewrite decide_False by (by intros ?).
  - by rewrite decide_True by done.
Qed.

Lemma groupby_size_values (rows : list Row) :
  Forall (fun v => (1 <= v)%Z) (map snd (map_to_list (groupby_size rows))).
Proof.
  rewrite Forall_forall. intros v Hv.
  apply list_elem_of_fmap in Hv as ([k v'] & -> & Hkv).
  apply elem_of_map_to_list in Hkv. apply groupby_size_positive in Hkv.
  simpl. lia.
Qed.

End BiasFacts.

(** X19: [popularity_bias_score] is 0 when the ratings were never loaded
    or no recommended movie has a rating; otherwise it is positive and
    equals the mean number of ratings of the recommended movies that have
    any (a repeated movie counted each time) divided by the number of
    rows per rated movie. It does not depend on the order of the
    recommendations. *)
Theorem popularity_bias_score_spec
    (rows : list Fairness.Row) (recs : list Z) :
  let score := Fairness.popularity_bias_score (Some rows) recs in
  let rated :=
    filter (fun c => c <> 0%Z) (map (Fairness.rating_count rows) recs) in
  Fairness.popularity_bias_score None recs = 0
  /\ (rated = [] -> score = 0)
  /\ (rated <> [] ->
      score
      = Fairness.mean rated
        / (Qc_of_Z (Z.of_nat (length rows))
           / Qc_of_Z (Z.of_nat (size (Fairness.groupby_size rows))))
      /\ 0 < score)
  /\ (forall recs',
        recs ≡ₚ recs' ->
        Fairness.popularity_bias_score (Some rows) recs' = score).
Proof.
  intros score rated. split; [done |].
  assert (score
          = match rated with
            | [] => 0
            | _ =>
                if decide (Fairness.mean
                             (map snd (map_to_list
                                         (Fairness.groupby_size rows))) = 0)
                then 0
                else Fairness.mean rated
                     / Fairness.mean
                         (map snd (map_to_list (Fairness.groupby_size rows)))
            end) as Hscore.
  { unfold score, Fairness.popularity_bias_score.
    by rewrite rec_popularity_spec. }
  split; [| split].
  - intros E. by rewrite Hscore, E.
  - intros Hne.
    assert (Forall (fun v => (1 <= v)%Z) rated) as Hrated.
    { rewrite Forall_forall. intros c Hc.
      apply list_elem_of_filter in Hc as [Hc0 Hc].
      apply list_elem_of_fmap in Hc as (movie & -> & _).
      pose proof (rating_count_nonneg rows movie). lia. }
    pose proof (mean_ge_1 _ Hne Hrated) as Hrec.
    assert (map snd (map_to_list (Fairness.groupby_size rows)) <> [])
      as Hmap.
    { destruct rated as [| c rated'] eqn:Er; [done |].
      assert (c ∈ rated) as Hc by (rewrite Er; by left).
      apply list_elem_of_filter in Hc as [Hc0 Hc].
      apply list_elem_of_fmap in Hc as (movie & -> & _).
      pose proof (groupby_size_lookup rows movie) as Hl.
      rewrite decide_False in Hl by done.
      apply elem_of_map_to_list in Hl. intros Hnil.
      apply (list_elem_of_fmap_2 snd) in Hl.
      change (snd <$> ?l) with (map snd l) in Hl. rewrite Hnil in Hl.
      by inversion Hl. }
    pose proof (mean_ge_1 _ Hmap (groupby_size_values rows)) as Hall.
    assert (0 < Fairness.mean
                  (map snd (map_to_list (Fairness.groupby_size rows))))
      as Hpos by (eapply Qclt_le_trans; [| apply Hall]; done).
    assert (score
            = Fairness.mean rated
              / Fairness.mean
                  (map snd (map_to_list (Fairness.groupby_size rows))))
      as Hval.
    { rewrite Hscore. destruct rated; [done |].
      rewrite decide_False; [done |]. intros E. rewrite E in Hpos.
      by apply (irreflexivity Qclt 0). }
    split.
    + by rewrite Hval, overall_popularity_spec.
    + rewrite Hval. apply Qcmult_pos_pos; [| by apply Qcinv_pos].
      eapply Qclt_le_trans; [| apply Hrec]. done.
  - intros recs' Hp. unfold score, Fairness.popularity_bias_score.
    assert (omap (fun movie => Fairness.groupby_size rows !! movie) recs
            ≡ₚ omap (fun movie => Fairness.groupby_size rows !! movie) recs')
      as Hperm by (by rewrite Hp).
    destruct (omap _ recs) as [| c l] eqn:E1;
      destruct (omap _ recs') as [| c' l'] eqn:E2.
    + done.
    + by apply Permutation_nil_cons in Hperm.
    + symmetry in Hperm. by apply Permutation_nil_cons in Hperm.
    + by rewrite (mean_perm _ _ Hperm).
Qed.

Lemma popularity_bias_score_spec_witness :
  0 < Fairness.popularity_bias_score (Some Examples.three_rows) [2; 3; 2]%Z.
Proof.
  destruct (popularity_bias_score_spec Examples.three_rows [2; 3; 2]%Z)
    as (_ & _ & Hrated & _).
  apply Hrated. discriminate.
Defined.

Section GenreCountFacts.
Import Fairness.

Lemma split_non_empty (sep : ascii) (s : string) : Py.split sep s <> [].
Proof.
  destruct s as [| c s]; simpl; [done |].
  destruct (Ascii.eqb c sep); [done |]. by destruct (Py.split sep s).
Qed.

Lemma unique_genres_positive (genres : string) :
  (1 <= unique_genres genres)%Z.
Proof.
  unfold unique_genres.
  destruct (Py.split "|" genres) as [| g gs] eqn:E;
    [by apply split_non_empty in E |].
  assert (g ∈ remove_dups (g :: gs)) as Hin
    by (apply elem_of_remove_dups; by left).
  destruct (remove_dups (g :: gs)); [by inversion Hin | simpl; lia].
Qed.

Lemma unique_genres_per_movie_some (rows : list MovieRow) (counts : list Z) :
  unique_genres_per_movie rows = Some counts ->
  Forall (fun v => (1 <= v)%Z) counts.
Proof.
  revert counts. induction rows as [| r rows IH]; intros counts; simpl.
  - intros [= <-]. constructor.
  - destruct (row_genres r) as [genres |]; [| done].
    destruct (unique_genres_per_movie rows) as [counts' |]; [| done].
    intros [= <-]. destruct (Py.truthy genres); [| by apply IH].
    constructor; [apply unique_genres_positive | by apply IH].
Qed.

Lemma unique_genres_per_movie_none (rows : list MovieRow) :
  unique_genres_per_movie rows = None
  <-> exists r, r ∈ rows /\ row_genres r = None.
Proof.
  induction rows as [| r rows IH]; simpl.
  - split; [done |]. intros (r & Hr & _). by inversion Hr.
  - destruct (row_genres r) as [genres |] eqn:E.
    + destruct (unique_genres_per_movie rows) as [counts |].
      * split; [done |]. intros (r' & Hr' & E').
        apply elem_of_cons in Hr' as [-> | Hr']; [congruence |].
        assert (Some counts = None) as Habs
          by (apply IH; by exists r').
        done.
      * split; [| done]. intros _.
        destruct (proj1 IH eq_refl) as (r' & Hr' & E').
        exists r'. split; [by right | done].
    + split; [| done]. intros _. exists r. split; [by left | done].
Qed.

End GenreCountFacts.

(** X20: [diversity_score] is 0 or at least 1, never in between. It is 0
    when no row of the movies table is recommended and when a recommended
    row has a genres cell that is not a string; it depends only on which
    movies are recommended, not on their order or repetitions. *)
Theorem diversity_score_range
    (table : list Fairness.MovieRow) (recs : list Z) :
  let score := Fairness.diversity_score (Some table) recs in
  (score = 0 \/ 1 ≤ score)
  /\ ((forall r, r ∈ table -> Fairness.row_movie_id r ∉ recs) -> score = 0)
  /\ ((exists r,
         r ∈ table /\ Fairness.row_movie_id r ∈ recs
         /\ Fairness.row_genres r = None) ->
      score = 0)
  /\ (forall recs',
        (forall movie, movie ∈ recs <-> movie ∈ recs') ->
        Fairness.diversity_score (Some table) recs' = score)
  /\ Fairness.diversity_score None recs = 0.
Proof.
  intros score. unfold score, Fairness.diversity_score.
  set (recommended_movies :=
         filter (fun r => Fairness.row_movie_id r ∈ recs) table).
  split; [| split; [| split; [| split; [| done]]]].
  - destruct recommended_movies as [| r0 rest]; [by left |].
    destruct (Fairness.unique_genres_per_movie (r0 :: rest))
      as [[| c counts] |] eqn:E; [by left | | by left].
    right. apply mean_ge_1; [done |].
    by apply (unique_genres_per_movie_some (r0 :: rest)).
  - intros Hnone.
    assert (recommended_movies = []) as ->; [| done].
    apply elem_of_nil_inv. intros r Hr.
    apply list_elem_of_filter in Hr as [Hin Hr]. by apply (Hnone r).
  - intros (r & Hr & Hin & Hnan).
    assert (r ∈ recommended_movies) as Hrec
      by (apply list_elem_of_filter; by split).
    assert (Fairness.unique_genres_per_movie recommended_movies = None) as ->
      by (apply unique_genres_per_movie_none; by exists r).
    by destruct recommended_movies.
  - intros recs' Hsame.
    assert (filter (fun r => Fairness.row_movie_id r ∈ recs') table
            = recommended_movies) as ->; [| done].
    apply list_filter_iff. intros r. symmetry. apply Hsame.
Qed.

Lemma diversity_score_range_witness :
  Fairness.diversity_score (Some Examples.genre_rows) [3; 1]%Z = 0.
Proof.
  destruct (diversity_score_range Examples.genre_rows [3; 1]%Z)
    as (_ & _ & Hnan & _).
  apply Hnan.
  exists {| Fairness.row_movie_id := 3; Fairness.row_genres := None |}.
  split; [| split; [| reflexivity]].
  - unfold Examples.genre_rows. rewrite !elem_of_cons. auto.
  - simpl. rewrite !elem_of_cons. auto.
Defined.
